(** * The particle field simulator of the landing page

    A shallow embedding of [AntiGravityCanvas] from
    [src/components/ui/particle-effect-for-hero.tsx]: the initialisation of
    the two particle populations, the per-frame update [animate] and the
    input handlers, followed by the properties the specification states
    about them.

    The source computes with JavaScript numbers.  The embedding is written
    once, over an interface [JsNumber] of the arithmetic the source uses,
    and is read at two instances:
    - [R], the exact arithmetic the specification reasons in;
    - [float], IEEE 754 binary64, the arithmetic the program runs in,
      where the definitions evaluate.
    What the program does is stated in any arithmetic or at [float];
    [R] gives the formulas their exact meaning. *)

From Stdlib Require Import ZArith List Bool String Lia.
From Stdlib Require Import Reals Lra.
From Stdlib Require Floats Uint63.
Import ListNotations.

Set Implicit Arguments.

(** ** Numbers *)

Declare Scope js_scope.
Delimit Scope js_scope with js.

(** The operations on [number] that the source uses.  [Math_floor] and
    [Math_round] return the integer they compute; [truthy] is the
    conversion to a boolean that [||] performs, and [toUnsignedLong] the
    conversion that storing a number in [canvas.width] or [canvas.height]
    performs. *)
Class JsNumber (num : Type) : Type := {
  lit : Z -> num;
  add : num -> num -> num;
  sub : num -> num -> num;
  mul : num -> num -> num;
  div : num -> num -> num;
  neg : num -> num;
  ltb : num -> num -> bool;
  leb : num -> num -> bool;
  Math_sqrt : num -> num;
  Math_min : num -> num -> num;
  Math_max : num -> num -> num;
  Math_floor : num -> Z;
  Math_round : num -> Z;
  Math_PI : num;
  truthy : num -> bool;
  toUnsignedLong : num -> num
}.

Notation "a + b" := (add a b) : js_scope.
Notation "a - b" := (sub a b) : js_scope.
Notation "a * b" := (mul a b) : js_scope.
Notation "a / b" := (div a b) : js_scope.
Notation "- a" := (neg a) : js_scope.
Notation "a <? b" := (ltb a b) (at level 70) : js_scope.
Notation "a <=? b" := (leb a b) (at level 70) : js_scope.
Notation "a >? b" := (ltb b a) (at level 70) : js_scope.
Notation "a >=? b" := (leb b a) (at level 70) : js_scope.

(** The two facts about the comparisons that the wrap-around of the
    background particles rests on.  They hold of the reals and of
    binary64, NaN included. *)
Class JsOrder (num : Type) `{JsNumber num} : Prop := {
  ltb_irrefl : forall a : num, (a <? a)%js = false;
  ltb_above : forall a b : num,
    (lit 0 <=? b)%js = true -> (b <? a)%js = true -> (a <? lit 0)%js = false
}.

Arguments JsOrder num {_}.

(** A decimal literal [m / 10^k], such as [0.00015 = decimal 15 5].  Both
    operands are small integers, so at [float] the quotient is the double
    nearest to the decimal, which is the value of the literal. *)
Definition decimal {num} `{JsNumber num} (m : Z) (k : nat) : num :=
  (lit m / lit (10 ^ Z.of_nat k))%js.

(** *** Exact arithmetic

    The reals compute every formula of the source without rounding, and
    have no NaN, no infinity and [x / 0 = 0].  A property proved at this
    instance is a property of the formulas; what is stated of the program
    is stated in any arithmetic or at the binary64 instance. *)

(** Truncation towards zero, modulo [2^32]. *)
Definition Ztrunc32 (n : Z) : Z := Z.modulo n (2 ^ 32).

Definition Rltb (a b : R) : bool := if Rlt_dec a b then true else false.
Definition Rleb (a b : R) : bool := if Rle_dec a b then true else false.

#[export] Instance R_JsNumber : JsNumber R := {|
  lit := IZR;
  add := Rplus;
  sub := Rminus;
  mul := Rmult;
  div := Rdiv;
  neg := Ropp;
  ltb := Rltb;
  leb := Rleb;
  Math_sqrt := R_sqrt.sqrt;
  Math_min := Rmin;
  Math_max := Rmax;
  Math_floor := Zfloor;
  Math_round := fun a => Zfloor (a + / 2);
  Math_PI := PI;
  truthy := fun a => if Req_dec_T a 0 then false else true;
  toUnsignedLong := fun a =>
    IZR (Ztrunc32 (if Rle_dec 0 a then Zfloor a else Zceil a))
|}.

(** *** Binary64 *)

Abbreviation float := PrimFloat.float.

Definition float_lit (z : Z) : float :=
  match z with
  | Z0 => PrimFloat.zero
  | Zpos _ => PrimFloat.of_uint63 (Uint63.of_Z z)
  | Zneg p => PrimFloat.opp (PrimFloat.of_uint63 (Uint63.of_Z (Zpos p)))
  end.

(** The signed mantissa and the exponent of a finite nonzero double. *)
Definition float_parts (f : float) : option (Z * Z) :=
  match FloatOps.Prim2SF f with
  | SpecFloat.S754_finite s m e => Some (if s then Zneg m else Zpos m, e)
  | SpecFloat.S754_zero _ => Some (0, 0)%Z
  | _ => None
  end.

(** [Math.floor] and [Math.round] (halves go up) on a finite double; the
    value is [n * 2^e], and both are computed on [n] and [e] exactly.  The
    source applies them to finite numbers only: the model gives 0 at an
    infinity and at NaN. *)
Definition float_floor (f : float) : Z :=
  match float_parts f with
  | Some (n, e) => if (0 <=? e)%Z then n * 2 ^ e else n / 2 ^ (- e)
  | None => 0
  end.

Definition float_round (f : float) : Z :=
  match float_parts f with
  | Some (n, e) =>
      if (0 <=? e)%Z then n * 2 ^ e
      else (2 * n + 2 ^ (- e)) / 2 ^ (- e + 1)
  | None => 0
  end.

(** The conversion to [unsigned long] of Web IDL: the number is
    truncated towards zero and taken modulo [2^32]; NaN and the
    infinities give 0. *)
Definition float_toUnsignedLong (f : float) : float :=
  match float_parts f with
  | Some (n, e) =>
      float_lit (Ztrunc32 (if (0 <=? e)%Z then n * 2 ^ e
                           else Z.quot n (2 ^ (- e))))
  | None => float_lit 0
  end.

Definition float_min (a b : float) : float :=
  if PrimFloat.is_nan a || PrimFloat.is_nan b then PrimFloat.nan
  else if PrimFloat.ltb a b then a
  else if PrimFloat.ltb b a then b
  else if PrimFloat.get_sign a then a else b.

Definition float_max (a b : float) : float :=
  if PrimFloat.is_nan a || PrimFloat.is_nan b then PrimFloat.nan
  else if PrimFloat.ltb a b then b
  else if PrimFloat.ltb b a then a
  else if PrimFloat.get_sign a then b else a.

#[export] Instance float_JsNumber : JsNumber float := {|
  lit := float_lit;
  add := PrimFloat.add;
  sub := PrimFloat.sub;
  mul := PrimFloat.mul;
  div := PrimFloat.div;
  neg := PrimFloat.opp;
  ltb := PrimFloat.ltb;
  leb := PrimFloat.leb;
  Math_sqrt := PrimFloat.sqrt;
  Math_min := float_min;
  Math_max := float_max;
  Math_floor := float_floor;
  Math_round := float_round;
  Math_PI := PrimFloat.div (float_lit 3141592653589793) (float_lit (10 ^ 15));
  truthy := fun a => negb (PrimFloat.is_zero a || PrimFloat.is_nan a);
  toUnsignedLong := float_toUnsignedLong
|}.

(** ** The simulator *)

Section Simulator.

Context {num : Type} `{JsNumber num}.

(** [Math.sin], and the sequence of values that successive calls of
    [Math.random()] return: the simulator counts its calls. *)
Variable Math_sin : num -> num.
Variable Math_random : nat -> num.

Local Open Scope js_scope.

(** *** Types *)

Record Particle : Type := {
  x : num;
  y : num;
  originX : num;
  originY : num;
  vx : num;
  vy : num;
  size : num;
  color : string;
  angle : num
}.

Record BackgroundParticle : Type := {
  bg_x : num;
  bg_y : num;
  bg_vx : num;
  bg_vy : num;
  bg_size : num;
  bg_alpha : num;
  bg_phase : num
}.

Record MouseState : Type := {
  mouse_x : num;
  mouse_y : num;
  isActive : bool
}.

(** *** Configuration constants *)

Definition PARTICLE_DENSITY : num := decimal 15 5.
Definition BG_PARTICLE_DENSITY : num := decimal 5 5.
Definition MOUSE_RADIUS : num := lit 250.
Definition RETURN_SPEED : num := decimal 5 2.
Definition DAMPING : num := decimal 92 2.
Definition REPULSION_STRENGTH : num := decimal 12 1.

(** *** Helper functions *)

(** [randomRange min max], at the [k]-th call of [Math.random]. *)
Definition randomRange (k : nat) (min max : num) : num :=
  Math_random k * (max - min) + min.

(** Linear interpolation for arrays of length 3 (RGB). *)
Definition lerpColor (start end_ : num * num * num) (factor : num)
  : Z * Z * Z :=
  let '(s0, s1, s2) := start in
  let '(e0, e1, e2) := end_ in
  (Math_round (s0 + (e0 - s0) * factor),
   Math_round (s1 + (e1 - s1) * factor),
   Math_round (s2 + (e2 - s2) * factor)).

(** *** State

    The refs of the component, the entity count it reports to the page
    through [setEntityCount], and the number of [Math.random] calls made. *)
Record Sim : Type := {
  particles : list Particle;
  backgroundParticles : list BackgroundParticle;
  mouse : MouseState;
  frameId : nat;
  lastTime : num;
  lastFpsTime : num;
  frameCount : Z;
  lastScrollTop : num;
  entityCount : Z;
  randomCalls : nat
}.

Definition initialSim : Sim := {|
  particles := [];
  backgroundParticles := [];
  mouse := {| mouse_x := lit (-1000); mouse_y := lit (-1000);
              isActive := false |};
  frameId := 0;
  lastTime := lit 0;
  lastFpsTime := lit 0;
  frameCount := 0;
  lastScrollTop := lit 0;
  entityCount := 0;
  randomCalls := 0
|}.

(** *** Initialisation *)

(** One iteration of the first loop of [initParticles]: five calls of
    [Math.random], from the [k]-th on. *)
Definition newParticle (k : nat) (width height : num) : Particle :=
  let px := Math_random k * width in
  let py := Math_random (k + 1) * height in
  {| x := px;
     y := py;
     originX := px;
     originY := py;
     vx := lit 0;
     vy := lit 0;
     size := randomRange (k + 2) (lit 1) (decimal 25 1);
     color := if Math_random (k + 3) >? decimal 9 1
              then "#4285F4"%string else "#ffffff"%string;
     angle := Math_random (k + 4) * Math_PI * lit 2 |}.

Fixpoint newParticles (count k : nat) (width height : num)
  : list Particle :=
  match count with
  | O => []
  | S count' =>
      newParticle k width height :: newParticles count' (k + 5) width height
  end.

(** One iteration of the second loop: seven calls of [Math.random]. *)
Definition newBgParticle (k : nat) (width height : num)
  : BackgroundParticle :=
  {| bg_x := Math_random k * width;
     bg_y := Math_random (k + 1) * height;
     bg_vx := (Math_random (k + 2) - decimal 5 1) * decimal 2 1;
     bg_vy := (Math_random (k + 3) - decimal 5 1) * decimal 2 1;
     bg_size := randomRange (k + 4) (decimal 5 1) (decimal 15 1);
     bg_alpha := randomRange (k + 5) (decimal 1 1) (decimal 4 1);
     bg_phase := Math_random (k + 6) * Math_PI * lit 2 |}.

Fixpoint newBgParticles (count k : nat) (width height : num)
  : list BackgroundParticle :=
  match count with
  | O => []
  | S count' =>
      newBgParticle k width height
        :: newBgParticles count' (k + 7) width height
  end.

(** The loops run while [i < count], that is [Z.to_nat count] times. *)
Definition initParticles (width height : num) (s : Sim) : Sim :=
  let particleCount := Math_floor (width * height * PARTICLE_DENSITY) in
  let k := randomCalls s in
  let newP := newParticles (Z.to_nat particleCount) k width height in
  let k' := (k + 5 * Z.to_nat particleCount)%nat in
  let bgCount := Math_floor (width * height * BG_PARTICLE_DENSITY) in
  let newBg := newBgParticles (Z.to_nat bgCount) k' width height in
  {| particles := newP;
     backgroundParticles := newBg;
     mouse := mouse s;
     frameId := frameId s;
     lastTime := lastTime s;
     lastFpsTime := lastFpsTime s;
     frameCount := frameCount s;
     lastScrollTop := lastScrollTop s;
     entityCount := (particleCount + bgCount)%Z;
     randomCalls := (k' + 7 * Z.to_nat bgCount)%nat |}.

(** The canvas element as the component sees it: its backing size, and
    whether [getContext('2d')] yields a context. *)
Record Canvas : Type := {
  canvas_width : num;
  canvas_height : num;
  has_context : bool
}.

(** The bounding box of the container. *)
Record Rect : Type := {
  rect_width : num;
  rect_height : num
}.

(** [handleResize], run on mount and on every resize event.  It sizes
    the backing store of the canvas and repopulates the particles, when
    both elements are there.  [canvas.width] and [canvas.height] hold
    unsigned integers: the number stored is converted.  The CSS size of
    the canvas and the scale of its context, which it also sets, are not
    part of the state. *)
Definition handleResize (container : option Rect) (cv : option Canvas)
  (devicePixelRatio : num) (s : Sim) : Sim * option Canvas :=
  match container, cv with
  | Some r, Some c =>
      let width := rect_width r in
      let height := rect_height r in
      let dpr := if truthy devicePixelRatio then devicePixelRatio
                 else lit 1 in
      (initParticles width height s,
       Some {| canvas_width := toUnsignedLong (width * dpr);
               canvas_height := toUnsignedLong (height * dpr);
               has_context := has_context c |})
  | _, _ => (s, cv)
  end.

(** *** What a frame reads and writes *)

(** The scroll container. *)
Record ScrollEl : Type := {
  scrollTop : num;
  scrollHeight : num;
  clientHeight : num
}.

(** What a frame callback reads from the page: the refs it dereferences,
    [window.innerHeight], and the id [requestAnimationFrame] returns. *)
Record FrameEnv : Type := {
  canvasRef : option Canvas;
  scrollRef : option ScrollEl;
  fpsRef : bool;
  innerHeight : num;
  rafId : nat
}.

Inductive FillStyle : Type :=
| RadialGradient (cx cy r : num) (rgb : Z * Z * Z) (a : num)
| Rgba (rgb : Z * Z * Z) (a : num)
| Color (c : string).

(** The calls on the drawing context, in order. *)
Inductive DrawCmd : Type :=
| ClearRect (w h : num)
| FillRect (style : FillStyle) (w h : num)
| FillCircle (style : FillStyle) (globalAlpha cx cy radius : num).

(** What a frame callback does besides updating the refs: the drawing
    calls, the frame count written to the FPS element (as [FPS: n]), and
    whether the next frame is requested. *)
Record FrameOut : Type := {
  next : Sim;
  drawn : list DrawCmd;
  fpsText : option Z;
  requested : bool
}.

(** *** Colors *)

Definition currentColor (scrollProgress : num) : Z * Z * Z :=
  if scrollProgress <=? lit 1 then
    lerpColor (lit 66, lit 133, lit 244) (lit 147, lit 51, lit 234)
      scrollProgress
  else
    lerpColor (lit 147, lit 51, lit 234) (lit 34, lit 211, lit 238)
      (scrollProgress - lit 1).

(** *** Background particles *)

Definition moveBackground (canvas : Canvas) (scrollForce : num)
  (p : BackgroundParticle) : BackgroundParticle :=
  let px := bg_x p + bg_vx p in
  let py := bg_y p + (bg_vy p + scrollForce * decimal 1 1) in
  let px := if px <? lit 0 then canvas_width canvas else px in
  let px := if px >? canvas_width canvas then lit 0 else px in
  let py := if py <? lit 0 then canvas_height canvas else py in
  let py := if py >? canvas_height canvas then lit 0 else py in
  {| bg_x := px;
     bg_y := py;
     bg_vx := bg_vx p;
     bg_vy := bg_vy p;
     bg_size := bg_size p;
     bg_alpha := bg_alpha p;
     bg_phase := bg_phase p |}.

Definition drawBackground (time : num) (p : BackgroundParticle) : DrawCmd :=
  let twinkle :=
    Math_sin (time * decimal 2 3 + bg_phase p) * decimal 5 1 + decimal 5 1 in
  let currentAlpha := bg_alpha p * (decimal 3 1 + decimal 7 1 * twinkle) in
  FillCircle (Color "#ffffff") currentAlpha (bg_x p) (bg_y p) (bg_size p).

(** *** Foreground physics *)

Definition setVelocity (p : Particle) (vx' vy' : num) : Particle :=
  {| x := x p; y := y p; originX := originX p; originY := originY p;
     vx := vx'; vy := vy';
     size := size p; color := color p; angle := angle p |}.

Definition setPosition (p : Particle) (x' y' : num) : Particle :=
  {| x := x'; y := y'; originX := originX p; originY := originY p;
     vx := vx p; vy := vy p;
     size := size p; color := color p; angle := angle p |}.

(** 1. Mouse interaction. *)
Definition mouseInteraction (m : MouseState) (p : Particle) : Particle :=
  let dx := mouse_x m - x p in
  let dy := mouse_y m - y p in
  let distance := Math_sqrt (dx * dx + dy * dy) in
  if isActive m && (distance <? MOUSE_RADIUS) then
    let forceDirectionX := dx / distance in
    let forceDirectionY := dy / distance in
    let force := (MOUSE_RADIUS - distance) / MOUSE_RADIUS in
    let repulsion := force * REPULSION_STRENGTH in
    setVelocity p
      (vx p - forceDirectionX * repulsion * lit 5)
      (vy p - forceDirectionY * repulsion * lit 5)
  else p.

(** 2. Scroll interaction (wind). *)
Definition scrollInteraction (scrollForce : num) (p : Particle) : Particle :=
  setVelocity p (vx p) (vy p + scrollForce).

(** 3. Spring force. *)
Definition springForce (p : Particle) : Particle :=
  let springDx := originX p - x p in
  let springDy := originY p - y p in
  setVelocity p (vx p + springDx * RETURN_SPEED)
                (vy p + springDy * RETURN_SPEED).

(** The body of the first loop over the foreground particles. *)
Definition applyForces (m : MouseState) (scrollForce : num) (p : Particle)
  : Particle :=
  springForce (scrollInteraction scrollForce (mouseInteraction m p)).

(** The body of the inner loop of the collision pass, on the pair
    [p1 = particles[i]], [p2 = particles[j]]. *)
Definition collide (p1 p2 : Particle) : Particle * Particle :=
  let dx := x p2 - x p1 in
  let dy := y p2 - y p1 in
  let distSq := dx * dx + dy * dy in
  let minDist := size p1 + size p2 in
  if distSq <? minDist * minDist then
    let dist := Math_sqrt distSq in
    if dist >? decimal 1 2 then
      let nx := dx / dist in
      let ny := dy / dist in
      let overlap := minDist - dist in
      let pushX := nx * overlap * decimal 5 1 in
      let pushY := ny * overlap * decimal 5 1 in
      (setPosition p1 (x p1 - pushX) (y p1 - pushY),
       setPosition p2 (x p2 + pushX) (y p2 + pushY))
    else (p1, p2)
  else (p1, p2).

(** The inner loop: [p1] against the particles of higher index, in
    order. *)
Fixpoint collideWithRest (p1 : Particle) (rest : list Particle)
  : Particle * list Particle :=
  match rest with
  | [] => (p1, [])
  | p2 :: rest' =>
      let '(p1', p2') := collide p1 p2 in
      let '(p1'', rest'') := collideWithRest p1' rest' in
      (p1'', p2' :: rest'')
  end.

(** Damping, then the velocity is added to the position. *)
Definition integrate (p : Particle) : Particle :=
  let vx' := vx p * DAMPING in
  let vy' := vy p * DAMPING in
  {| x := x p + vx'; y := y p + vy';
     originX := originX p; originY := originY p;
     vx := vx'; vy := vy';
     size := size p; color := color p; angle := angle p |}.

(** The speed from which the opacity of a particle is computed. *)
Definition speed (p : Particle) : num :=
  Math_sqrt (vx p * vx p + vy p * vy p).

(** The arc and fill of one foreground particle, at the [k]-th call of
    [Math.random]. *)
Definition drawParticle (rgb : Z * Z * Z) (k : nat) (p1 : Particle)
  : DrawCmd :=
  let velocity := speed p1 in
  let opacity := Math_min (decimal 3 1 + velocity * decimal 1 1) (lit 1) in
  let fillStyle :=
    if Math_random k >? decimal 995 3 then Rgba rgb opacity
    else if String.eqb (color p1) "#ffffff"
         then Rgba (255, 255, 255)%Z opacity
         else Color (color p1) in
  FillCircle fillStyle (lit 1) (x p1) (y p1) (size p1).

(** The second loop over the foreground particles: its [n] iterations
    from index [i] on, where [ps] holds [particles[i]],
    [particles[i+1]], ... up to the end of the array ([n] is their
    number).  Only a particle of even index runs the inner loop. *)
Fixpoint collisionLoop (rgb : Z * Z * Z) (n i k : nat) (ps : list Particle)
  : list Particle * list DrawCmd :=
  match n, ps with
  | S n', p1 :: rest =>
      let '(p1', rest') :=
        if Nat.even i then collideWithRest p1 rest else (p1, rest) in
      let p1'' := integrate p1' in
      let '(ps', cmds) := collisionLoop rgb n' (S i) (S k) rest' in
      (p1'' :: ps', drawParticle rgb k p1'' :: cmds)
  | _, _ => ([], [])
  end.

(** *** The animation loop *)

(** A frame that returns at once. *)
Definition skipped (s : Sim) : FrameOut :=
  {| next := s; drawn := []; fpsText := None; requested := false |}.

Definition animate (env : FrameEnv) (time : num) (s : Sim) : FrameOut :=
  match canvasRef env with
  | None => skipped s
  | Some canvas =>
      if negb (has_context canvas) then skipped s
      else
        (* FPS calculation *)
        let frameCount' := (frameCount s + 1)%Z in
        let fpsDue := time - lastFpsTime s >=? lit 1000 in
        (* scroll physics *)
        let '(scrollDelta, scrollProgress, lastScrollTop') :=
          match scrollRef env with
          | Some el =>
              let currentScroll := scrollTop el in
              (currentScroll - lastScrollTop s,
               Math_min (Math_max (currentScroll / innerHeight env) (lit 0))
                        (lit 2),
               currentScroll)
          | None => (lit 0, lit 0, lastScrollTop s)
          end in
        let scrollForce := (- scrollDelta) * decimal 5 2 in
        let rgb := currentColor scrollProgress in
        (* background effects *)
        let centerX := canvas_width canvas / lit 2 in
        let centerY := canvas_height canvas / lit 2 in
        let pulseSpeed := decimal 8 4 in
        let pulseOpacity :=
          Math_sin (time * pulseSpeed) * decimal 35 3 + decimal 85 3 in
        let gradient :=
          RadialGradient centerX centerY
            (Math_max (canvas_width canvas) (canvas_height canvas)
             * decimal 7 1)
            rgb pulseOpacity in
        let bgParticles :=
          map (moveBackground canvas scrollForce) (backgroundParticles s) in
        (* main foreground physics *)
        let forced := map (applyForces (mouse s) scrollForce) (particles s) in
        let '(particles', dots) :=
          collisionLoop rgb (List.length forced) 0 (randomCalls s) forced in
        {| next :=
             {| particles := particles';
                backgroundParticles := bgParticles;
                mouse := mouse s;
                frameId := rafId env;
                lastTime := time;
                lastFpsTime := if fpsDue then time else lastFpsTime s;
                frameCount := if fpsDue then 0%Z else frameCount';
                lastScrollTop := lastScrollTop';
                entityCount := entityCount s;
                randomCalls := (randomCalls s + List.length forced)%nat |};
           drawn :=
             ClearRect (canvas_width canvas) (canvas_height canvas)
               :: FillRect gradient (canvas_width canvas)
                    (canvas_height canvas)
               :: map (drawBackground time) bgParticles ++ dots;
           fpsText := if fpsDue && fpsRef env then Some frameCount' else None;
           requested := true |}
  end.

(** *** Input handlers *)

Definition handleGlobalMouseMove (clientX clientY : num) (s : Sim) : Sim :=
  {| particles := particles s;
     backgroundParticles := backgroundParticles s;
     mouse := {| mouse_x := clientX; mouse_y := clientY; isActive := true |};
     frameId := frameId s;
     lastTime := lastTime s;
     lastFpsTime := lastFpsTime s;
     frameCount := frameCount s;
     lastScrollTop := lastScrollTop s;
     entityCount := entityCount s;
     randomCalls := randomCalls s |}.

Definition handleGlobalMouseLeave (s : Sim) : Sim :=
  {| particles := particles s;
     backgroundParticles := backgroundParticles s;
     mouse := {| mouse_x := mouse_x (mouse s); mouse_y := mouse_y (mouse s);
                 isActive := false |};
     frameId := frameId s;
     lastTime := lastTime s;
     lastFpsTime := lastFpsTime s;
     frameCount := frameCount s;
     lastScrollTop := lastScrollTop s;
     entityCount := entityCount s;
     randomCalls := randomCalls s |}.

(** What the host delivers to the component after mount. *)
Inductive Event : Type :=
| Resize (container : option Rect) (cv : option Canvas)
         (devicePixelRatio : num)
| MouseMove (clientX clientY : num)
| MouseOut
| Frame (env : FrameEnv) (time : num).

Definition handle (e : Event) (s : Sim) : Sim :=
  match e with
  | Resize container cv dpr => fst (handleResize container cv dpr s)
  | MouseMove clientX clientY => handleGlobalMouseMove clientX clientY s
  | MouseOut => handleGlobalMouseLeave s
  | Frame env time => next (animate env time s)
  end.

Definition isResize (e : Event) : bool :=
  match e with Resize _ _ _ => true | _ => false end.

(** *** Vocabulary of the properties *)

(** The resting point of a particle. *)
Definition origin (p : Particle) : num * num := (originX p, originY p).

(** The frame callback has a canvas and a 2D context to draw on. *)
Definition available (env : FrameEnv) : bool :=
  match canvasRef env with
  | Some canvas => has_context canvas
  | None => false
  end.

(** A frame of a particle on which only the spring acts. *)
Definition freeStep (p : Particle) : Particle := integrate (springForce p).

(** The frames the host delivers, in order. *)
Definition run (frames : list (FrameEnv * num)) (s : Sim) : Sim :=
  fold_left
    (fun s f => next (animate (fst f) (snd f) s))
    frames s.

(** The events the host delivers, in order. *)
Definition handleAll (events : list Event) (s : Sim) : Sim :=
  fold_left (fun s e => handle e s) events s.

(** A resize that finds the container and the canvas, and so
    repopulates. *)
Definition repopulates (e : Event) : bool :=
  match e with
  | Resize (Some _) (Some _) _ => true
  | _ => false
  end.

(** What a frame leaves of a foreground and of a background particle. *)
Definition static (p : Particle) : num * string * num :=
  (size p, color p, angle p).

Definition bgStatic (p : BackgroundParticle) : num * num * num * num * num :=
  (bg_vx p, bg_vy p, bg_size p, bg_alpha p, bg_phase p).

Definition velocity (p : Particle) : num * num := (vx p, vy p).

Definition damp (v : num * num) : num * num :=
  (fst v * DAMPING, snd v * DAMPING).

(** The scroll force of a frame, as [animate] computes it. *)
Definition scrollForceOf (env : FrameEnv) (s : Sim) : num :=
  match scrollRef env with
  | Some el => (- (scrollTop el - lastScrollTop s)) * decimal 5 2
  | None => (- lit 0) * decimal 5 2
  end.

(** The scroll progress of a frame, as [animate] computes it. *)
Definition scrollProgressOf (env : FrameEnv) : num :=
  match scrollRef env with
  | Some el =>
      Math_min (Math_max (scrollTop el / innerHeight env) (lit 0)) (lit 2)
  | None => lit 0
  end.

(** The first test of the inner loop of the collision pass on a pair:
    the squared distance is below the squared sum of the radii. *)
Definition overlapTest (p1 p2 : Particle) : bool :=
  let dx := x p2 - x p1 in
  let dy := y p2 - y p1 in
  let minDist := size p1 + size p2 in
  dx * dx + dy * dy <? minDist * minDist.

(** The distance of the centres of a pair, as the inner loop computes
    it. *)
Definition centreDistance (p1 p2 : Particle) : num :=
  let dx := x p2 - x p1 in
  let dy := y p2 - y p1 in
  Math_sqrt (dx * dx + dy * dy).

(** From index [i] on, no pair that the collision pass examines passes
    the overlap test: every particle of even index is clear of all the
    particles after it. *)
Fixpoint unexamined (i : nat) (ps : list Particle) : Prop :=
  match ps with
  | [] => True
  | p1 :: rest =>
      (Nat.even i = true -> Forall (fun p2 => overlapTest p1 p2 = false) rest)
      /\ unexamined (S i) rest
  end.



(** *** Navigation

    [scrollToSection] of [Navigation], in the two variants of the page,
    and [handleHeroEnterClick] of [ParticleEffectHero]: what each does to
    the event, the scroll container and the element found. *)

Record Element : Type := {
  offsetTop : num
}.

Inductive NavEffect : Type :=
| PreventDefault
| ContainerScrollTo (top : num)
| ScrollIntoView (element : Element).

(** [scrollRef.current] is the scroll container or null; [document] is
    [document.getElementById]. *)
Definition scrollToSection (document : string -> option Element)
  (scrollRefCurrent : option ScrollEl) (id : string) : list NavEffect :=
  let element := document id in
  let container := scrollRefCurrent in
  PreventDefault ::
  match element, container with
  | Some el, Some _ => [ContainerScrollTo (offsetTop el)]
  | _, _ => []
  end.

(** The variant of the page with the mobile layout. *)
Definition scrollToSectionResponsive (isMobile : bool)
  (document : string -> option Element)
  (scrollRefCurrent : option ScrollEl) (id : string) : list NavEffect :=
  let element := document id in
  PreventDefault ::
  if isMobile then
    match element with
    | Some el => [ScrollIntoView el]
    | None => []
    end
  else
    let container := scrollRefCurrent in
    match element, container with
    | Some el, Some _ => [ContainerScrollTo (offsetTop el)]
    | _, _ => []
    end.

Definition handleHeroEnterClick (document : string -> option Element)
  (scrollRefCurrent : option ScrollEl) : list NavEffect :=
  match scrollRefCurrent with
  | Some _ =>
      match document "links-section"%string with
      | Some linksSection => [ContainerScrollTo (offsetTop linksSection)]
      | None => []
      end
  | None => []
  end.

End Simulator.

Arguments Element num : clear implicits.
Arguments NavEffect num : clear implicits.
Arguments Particle num : clear implicits.
Arguments BackgroundParticle num : clear implicits.
Arguments MouseState num : clear implicits.
Arguments Sim num : clear implicits.
Arguments Canvas num : clear implicits.
Arguments Rect num : clear implicits.
Arguments ScrollEl num : clear implicits.
Arguments FillStyle num : clear implicits.
Arguments DrawCmd num : clear implicits.
Arguments FrameEnv num : clear implicits.
Arguments FrameOut num : clear implicits.
Arguments Event num : clear implicits.

(** ** Vocabulary in exact arithmetic *)

Section ExactVocabulary.

Local Open Scope R_scope.

Definition distSq (p1 p2 : Particle R) : R :=
  (x p2 - x p1) * (x p2 - x p1) + (y p2 - y p1) * (y p2 - y p1).

Definition distance (p1 p2 : Particle R) : R := sqrt (distSq p1 p2).

(** The test of the inner loop: squared distance below the squared sum
    of the radii. *)
Definition overlapping (p1 p2 : Particle R) : Prop :=
  distSq p1 p2 < (size p1 + size p2) * (size p1 + size p2).

(** No pair that the pass examines overlaps: from index [i] on, every
    particle of even index is clear of all the particles after it. *)
Fixpoint quiet (i : nat) (ps : list (Particle R)) : Prop :=
  match ps with
  | [] => True
  | p1 :: rest =>
      (Nat.even i = true -> Forall (fun p2 => ~ overlapping p1 p2) rest)
      /\ quiet (S i) rest
  end.

Definition pointerDistance (m : MouseState R) (p : Particle R) : R :=
  sqrt ((mouse_x m - x p) * (mouse_x m - x p)
        + (mouse_y m - y p) * (mouse_y m - y p)).

(** The pointer is inactive and the last scroll offset seen is [c]. *)
Definition calm (c : R) (s : Sim R) : Prop :=
  isActive (mouse s) = false /\ lastScrollTop s = c.

(** The frame can draw, and the scroll offset it reads, if any, is [c]. *)
Definition steady (c : R) (env : FrameEnv R) : Prop :=
  available env = true /\
  match scrollRef env with Some el => scrollTop el = c | None => True end.

(** The energy of the damped spring: a positive definite form of the
    velocity and the displacement that each such frame multiplies by
    0.92. *)
Definition form (v u : R) : R :=
  92 / 100 * (v * v) + 34 / 1000 * (u * v) + 46 / 1000 * (u * u).

Definition energy (p : Particle R) : R :=
  form (vx p) (x p - originX p) + form (vy p) (y p - originY p).

(** *** Concrete states and frames *)

(** A foreground particle at [(px, py)], on its origin, with velocity
    [(v, 0)]. *)
Definition moving (px py v : R) : Particle R :=
  {| x := px; y := py; originX := px; originY := py;
     vx := v; vy := 0;
     size := 1; color := "#ffffff"; angle := 0 |}.

Definition inert (ps : list (Particle R)) : Sim R :=
  {| particles := ps;
     backgroundParticles := [];
     mouse := {| mouse_x := -1000; mouse_y := -1000; isActive := false |};
     frameId := 0;
     lastTime := 0;
     lastFpsTime := 0;
     frameCount := 0;
     lastScrollTop := 0;
     entityCount := Z.of_nat (List.length ps);
     randomCalls := 0 |}.

Definition drawable : FrameEnv R :=
  {| canvasRef := Some {| canvas_width := 800; canvas_height := 600;
                          has_context := true |};
     scrollRef := None;
     fpsRef := false;
     innerHeight := 600;
     rafId := 1 |}.

(** The same frame, with a scroll container scrolled to [c]. *)
Definition scrolled (c : R) : FrameEnv R :=
  {| canvasRef := Some {| canvas_width := 800; canvas_height := 600;
                          has_context := true |};
     scrollRef := Some {| scrollTop := c; scrollHeight := 3000;
                          clientHeight := 600 |};
     fpsRef := false;
     innerHeight := 600;
     rafId := 1 |}.


Definition noSin : R -> R := fun _ => 0.

Definition noRandom : nat -> R := fun _ => 0.

(** Three particles in a row: the second and the third overlap. *)
Definition row : list (Particle R) :=
  [moving 0 0 0; moving 10 0 0; moving 11 0 0].

End ExactVocabulary.

(** ** Vocabulary in binary64 *)

(** A foreground particle at rest at [(px, py)]. *)
Definition atRest (px py : float) : Particle float :=
  {| x := px; y := py; originX := px; originY := py;
     vx := lit 0; vy := lit 0;
     size := lit 1; color := "#ffffff"; angle := lit 0 |}.

(** The pointer, active, at [(px, py)]. *)
Definition pointerAt (px py : float) : MouseState float :=
  {| mouse_x := px; mouse_y := py; isActive := true |}.

(** A frame with a canvas and a context, without scroll container. *)
Definition plainEnv : FrameEnv float :=
  {| canvasRef := Some {| canvas_width := lit 800; canvas_height := lit 600;
                          has_context := true |};
     scrollRef := None;
     fpsRef := false;
     innerHeight := lit 600;
     rafId := 1 |}.

Definition withPointer (m : MouseState float) (ps : list (Particle float))
  : Sim float :=
  {| particles := ps;
     backgroundParticles := [];
     mouse := m;
     frameId := 0;
     lastTime := lit 0;
     lastFpsTime := lit 0;
     frameCount := 0;
     lastScrollTop := lit 0;
     entityCount := Z.of_nat (List.length ps);
     randomCalls := 0 |}.

(** A frame with a canvas, a context and a scroll container scrolled to
    [top], in a window of height [h]. *)
Definition scrolledEnv (top h : float) : FrameEnv float :=
  {| canvasRef := Some {| canvas_width := lit 800; canvas_height := lit 600;
                          has_context := true |};
     scrollRef := Some {| scrollTop := top; scrollHeight := lit 3000;
                          clientHeight := h |};
     fpsRef := false;
     innerHeight := h;
     rafId := 1 |}.

(** A background particle at [(px, py)] with velocity [(pvx, pvy)]. *)
Definition speck (px py pvx pvy : float) : BackgroundParticle float :=
  {| bg_x := px; bg_y := py; bg_vx := pvx; bg_vy := pvy;
     bg_size := lit 1; bg_alpha := decimal 2 1; bg_phase := lit 0 |}.

Definition withBackground (bs : list (BackgroundParticle float))
  : Sim float :=
  {| particles := [];
     backgroundParticles := bs;
     mouse := {| mouse_x := lit (-1000); mouse_y := lit (-1000);
                 isActive := false |};
     frameId := 0;
     lastTime := lit 0;
     lastFpsTime := lit 0;
     frameCount := 0;
     lastScrollTop := lit 0;
     entityCount := Z.of_nat (List.length bs);
     randomCalls := 0 |}.

(** A number that is neither NaN nor an infinity. *)
Definition isFinite (f : float) : bool :=
  negb (PrimFloat.is_nan f || PrimFloat.is_infinity f).


Definition allNaN (p : Particle float) : bool :=
  PrimFloat.is_nan (x p) && PrimFloat.is_nan (y p)
  && PrimFloat.is_nan (vx p) && PrimFloat.is_nan (vy p).

(** ** Properties that hold in any arithmetic *)

Section Structure.

Context {num : Type} `{JsNumber num}.
Variable Math_sin : num -> num.
Variable Math_random : nat -> num.

Lemma newParticles_length (count k : nat) (width height : num) :
  List.length (newParticles Math_random count k width height) = count.
Proof.
  revert k; induction count as [|c IH]; intros k; simpl; [reflexivity|].
  now rewrite IH.
Qed.

Lemma newBgParticles_length (count k : nat) (width height : num) :
  List.length (newBgParticles Math_random count k width height) = count.
Proof.
  revert k; induction count as [|c IH]; intros k; simpl; [reflexivity|].
  now rewrite IH.
Qed.

(** Every particle starts at rest on its origin. *)
Lemma newParticles_at_origin (count k : nat) (width height : num) :
  Forall (fun p => origin p = (x p, y p))
         (newParticles Math_random count k width height).
Proof.
  revert k; induction count as [|c IH]; intros k; simpl; constructor.
  - reflexivity.
  - apply IH.
Qed.

(** *** The origin through the phases of a frame *)

Lemma origin_mouseInteraction (m : MouseState num) (p : Particle num) :
  origin (mouseInteraction m p) = origin p.
Proof.
  unfold mouseInteraction.
  destruct (isActive m && _); reflexivity.
Qed.

Lemma origin_applyForces (m : MouseState num) (f : num) (p : Particle num) :
  origin (applyForces m f p) = origin p.
Proof.
  unfold applyForces, springForce, scrollInteraction, origin; simpl.
  fold (origin (mouseInteraction m p)).
  apply origin_mouseInteraction.
Qed.

Lemma origin_collide (p1 p2 : Particle num) :
  origin (fst (collide p1 p2)) = origin p1 /\
  origin (snd (collide p1 p2)) = origin p2.
Proof.
  unfold collide.
  destruct (_ <? _)%js; [|split; reflexivity].
  destruct (_ >? _)%js; split; reflexivity.
Qed.

Lemma collideWithRest_length (p1 : Particle num) (rest : list (Particle num)) :
  List.length (snd (collideWithRest p1 rest)) = List.length rest.
Proof.
  revert p1; induction rest as [|p2 rest IH]; intros p1; simpl.
  - reflexivity.
  - destruct (collide p1 p2) as [p1' p2'].
    specialize (IH p1').
    destruct (collideWithRest p1' rest) as [p1'' rest'']; simpl in *.
    now rewrite IH.
Qed.

Lemma origin_collideWithRest (p1 : Particle num) (rest : list (Particle num)) :
  origin (fst (collideWithRest p1 rest)) = origin p1 /\
  map origin (snd (collideWithRest p1 rest)) = map origin rest.
Proof.
  revert p1; induction rest as [|p2 rest IH]; intros p1; simpl.
  - split; reflexivity.
  - destruct (origin_collide p1 p2) as [E1 E2].
    destruct (collide p1 p2) as [p1' p2']; simpl in E1, E2.
    destruct (IH p1') as [E3 E4].
    destruct (collideWithRest p1' rest) as [p1'' rest'']; simpl in *.
    split; [congruence|].
    now rewrite E2, E4.
Qed.

Lemma origin_integrate (p : Particle num) : origin (integrate p) = origin p.
Proof. reflexivity. Qed.

Lemma origin_collisionLoop (rgb : Z * Z * Z) (n i k : nat)
  (ps : list (Particle num)) :
  n = List.length ps ->
  map origin (fst (collisionLoop Math_random rgb n i k ps)) = map origin ps.
Proof.
  revert i k ps; induction n as [|n IH]; intros i k [|p1 rest] Hn;
    simpl in *; try reflexivity; try discriminate.
  injection Hn as Hn.
  pose proof (origin_collideWithRest p1 rest) as [E1 E2].
  pose proof (collideWithRest_length p1 rest) as EL.
  destruct (Nat.even i).
  - destruct (collideWithRest p1 rest) as [p1' rest']; simpl in *.
    specialize (IH (S i) (S k) rest').
    destruct (collisionLoop Math_random rgb n (S i) (S k) rest') as [ps' cmds].
    simpl in *.
    rewrite origin_integrate, E1, IH, E2 by congruence.
    reflexivity.
  - specialize (IH (S i) (S k) rest Hn).
    destruct (collisionLoop Math_random rgb n (S i) (S k) rest) as [ps' cmds].
    simpl in *.
    now rewrite origin_integrate, IH.
Qed.

Lemma origin_animate (env : FrameEnv num) (time : num) (s : Sim num) :
  map origin (particles (next (animate Math_sin Math_random env time s)))
  = map origin (particles s).
Proof.
  unfold animate.
  destruct (canvasRef env) as [canvas|]; [|reflexivity].
  destruct (negb (has_context canvas)); [reflexivity|].
  destruct (scrollRef env) as [el|].
  - match goal with
    | |- context [collisionLoop ?r ?c ?n ?i ?k ?ps] =>
        pose proof (origin_collisionLoop c i k ps (n:=n) eq_refl) as E;
        destruct (collisionLoop r c n i k ps) as [ps' cmds]
    end.
    simpl in *. rewrite E, map_map.
    apply map_ext; intros p; apply origin_applyForces.
  - match goal with
    | |- context [collisionLoop ?r ?c ?n ?i ?k ?ps] =>
        pose proof (origin_collisionLoop c i k ps (n:=n) eq_refl) as E;
        destruct (collisionLoop r c n i k ps) as [ps' cmds]
    end.
    simpl in *. rewrite E, map_map.
    apply map_ext; intros p; apply origin_applyForces.
Qed.

(** C7.  The origin fields of the foreground particles, set at creation,
    are modified by no per-frame update and by no pointer handler: every
    event that is not a resize leaves the origin of every particle, and
    the number of particles, as they were.  Only a resize, which
    repopulates the list, changes them. *)
Theorem origin_fixed (e : Event num) (s : Sim num) :
  isResize e = false ->
  map origin (particles (handle Math_sin Math_random e s))
  = map origin (particles s).
Proof.
  destruct e as [container cv dpr|clientX clientY| |env time]; simpl;
    intros Hr; try discriminate; try reflexivity.
  apply origin_animate.
Qed.

(** *** Unavailable canvas *)

(** C9.  When the canvas or its 2D context is unavailable the frame
    changes no state, draws nothing, writes no FPS text and does not
    request the next frame; and this is the only way a frame ends without
    requesting the next one: with a canvas and a context the callback
    always runs to its end and requests the next frame. *)
Theorem animate_unavailable (env : FrameEnv num) (time : num) (s : Sim num) :
  (available env = false <->
   animate Math_sin Math_random env time s
   = {| next := s; drawn := []; fpsText := None; requested := false |})
  /\ requested (animate Math_sin Math_random env time s) = available env.
Proof.
  unfold available, animate, skipped.
  destruct (canvasRef env) as [canvas|].
  - destruct (has_context canvas); simpl.
    + destruct (scrollRef env);
        destruct (collisionLoop _ _ _ _ _ _); simpl;
        (split; [split; [discriminate|]|reflexivity]);
        intros E; apply (f_equal (@requested num)) in E; discriminate.
    + split; [split; reflexivity|reflexivity].
  - split; [split; reflexivity|reflexivity].
Qed.

End Structure.

(** ** Evaluation in binary64 *)

(** The constants are the doubles the literals of the source denote, and
    the counts of a 1000 by 1000 container are those of the exact
    arithmetic. *)
Lemma binary64_counts (Math_random : nat -> float) (s : Sim float) :
  let s' := initParticles Math_random (lit 1000) (lit 1000) s in
  List.length (particles s') = 150%nat /\
  List.length (backgroundParticles s') = 50%nat /\
  entityCount s' = 200%Z.
Proof.
  intros s'; subst s'; unfold initParticles.
  cbn [particles backgroundParticles entityCount].
  rewrite newParticles_length, newBgParticles_length.
  vm_compute. repeat split.
Qed.

(** In binary64 the product is rounded before the floor is taken: for a
    container of 100 by 1000 it is just below 15. *)
Lemma binary64_rounded_product :
  Math_floor (lit 100 * lit 1000 * PARTICLE_DENSITY : float)%js = 14%Z.
Proof. vm_compute. reflexivity. Qed.

Lemma binary64_stops :
  currentColor (lit 0 : float) = (66, 133, 244)%Z /\
  currentColor (lit 1 : float) = (147, 51, 234)%Z /\
  currentColor (lit 2 : float) = (34, 211, 238)%Z.
Proof. vm_compute. repeat split. Qed.

(** ** Properties in exact arithmetic *)

Section Exact.

Local Open Scope R_scope.

Variable Math_sin : R -> R.
Variable Math_random : nat -> R.

Lemma Rltb_true (a b : R) : a < b -> Rltb a b = true.
Proof. unfold Rltb; destruct (Rlt_dec a b); [reflexivity|contradiction]. Qed.

Lemma Rltb_false (a b : R) : b <= a -> Rltb a b = false.
Proof. unfold Rltb; destruct (Rlt_dec a b); [lra|reflexivity]. Qed.

Lemma Rleb_true (a b : R) : a <= b -> Rleb a b = true.
Proof. unfold Rleb; destruct (Rle_dec a b); [reflexivity|contradiction]. Qed.

Lemma Rleb_false (a b : R) : b < a -> Rleb a b = false.
Proof. unfold Rleb; destruct (Rle_dec a b); [lra|reflexivity]. Qed.

(** The constants of the source, as reals. *)
Lemma PARTICLE_DENSITY_R : PARTICLE_DENSITY = 15 / 100000.
Proof. reflexivity. Qed.

Lemma BG_PARTICLE_DENSITY_R : BG_PARTICLE_DENSITY = 5 / 100000.
Proof. reflexivity. Qed.

Lemma MOUSE_RADIUS_R : MOUSE_RADIUS = 250.
Proof. reflexivity. Qed.



Lemma REPULSION_STRENGTH_R : REPULSION_STRENGTH = 12 / 10.
Proof. reflexivity. Qed.

(** *** Gradient color *)

(** The scroll progress a frame computes lies in [[0, 2]]. *)
Lemma scrollProgress_range (currentScroll innerH : R) :
  0 <= Math_min (Math_max (currentScroll / innerH)%js (lit 0)) (lit 2) <= 2.
Proof.
  change (0 <= Rmin (Rmax (currentScroll / innerH) 0) 2 <= 2).
  split.
  - apply Rmin_glb; [apply Rmax_r|lra].
  - apply Rmin_r.
Qed.

(** The color of the gradient that a frame fills the canvas with. *)
Lemma animate_color (env : FrameEnv R) (time : R) (s : Sim R) :
  available env = true ->
  exists progress cx cy r a w h : R,
    0 <= progress <= 2 /\
    progress
    = match scrollRef env with
      | Some el => Rmin (Rmax (scrollTop el / innerHeight env) 0) 2
      | None => 0
      end /\
    nth_error (drawn (animate Math_sin Math_random env time s)) 1
    = Some (FillRect (RadialGradient cx cy r (currentColor progress) a) w h).
Proof.
  intros Ha. unfold available in Ha. unfold animate.
  destruct (canvasRef env) as [canvas|]; [|discriminate].
  rewrite Ha. cbn [negb].
  destruct (scrollRef env) as [el|].
  - exists (Rmin (Rmax (scrollTop el / innerHeight env) 0) 2).
    destruct (collisionLoop _ _ _ _ _ _) as [ps' cmds].
    cbn [drawn nth_error]. do 6 eexists.
    split; [apply scrollProgress_range|].
    split; reflexivity.
  - exists 0.
    destruct (collisionLoop _ _ _ _ _ _) as [ps' cmds].
    cbn [drawn nth_error]. do 6 eexists.
    split; [lra|]. split; reflexivity.
Qed.

(** *** Collision of a pair *)

Lemma distSq_nonneg (p1 p2 : Particle R) : 0 <= distSq p1 p2.
Proof.
  unfold distSq.
  pose proof (Rle_0_sqr (x p2 - x p1)) as Hx.
  pose proof (Rle_0_sqr (y p2 - y p1)) as Hy.
  unfold Rsqr in Hx, Hy. lra.
Qed.

Lemma distance_sqr (p1 p2 : Particle R) :
  distance p1 p2 * distance p1 p2 = distSq p1 p2.
Proof. apply sqrt_sqrt, distSq_nonneg. Qed.

Lemma collide_unfold (p1 p2 : Particle R) :
  collide p1 p2 =
  if Rltb (distSq p1 p2) ((size p1 + size p2) * (size p1 + size p2)) then
    if Rltb (1 / 100) (distance p1 p2) then
      let push := (size p1 + size p2 - distance p1 p2) * (5 / 10) in
      (setPosition p1
         (x p1 - (x p2 - x p1) / distance p1 p2
                 * (size p1 + size p2 - distance p1 p2) * (5 / 10))
         (y p1 - (y p2 - y p1) / distance p1 p2
                 * (size p1 + size p2 - distance p1 p2) * (5 / 10)),
       setPosition p2
         (x p2 + (x p2 - x p1) / distance p1 p2
                 * (size p1 + size p2 - distance p1 p2) * (5 / 10))
         (y p2 + (y p2 - y p1) / distance p1 p2
                 * (size p1 + size p2 - distance p1 p2) * (5 / 10)))
    else (p1, p2)
  else (p1, p2).
Proof. reflexivity. Qed.

(** A pair that does not overlap is left alone. *)
Lemma collide_apart (p1 p2 : Particle R) :
  ~ overlapping p1 p2 -> collide p1 p2 = (p1, p2).
Proof.
  intros Hn. rewrite collide_unfold, Rltb_false; [reflexivity|].
  unfold overlapping in Hn; lra.
Qed.

(** An overlapping pair more than 0.01 apart: each particle moves by
    half the overlap along the normal. *)
Lemma collide_overlapping (p1 p2 : Particle R) :
  0 <= size p1 + size p2 ->
  overlapping p1 p2 -> 1 / 100 < distance p1 p2 ->
  let d := distance p1 p2 in
  let overlap := size p1 + size p2 - d in
  let nx := (x p2 - x p1) / d in
  let ny := (y p2 - y p1) / d in
  let q1 := fst (collide p1 p2) in
  let q2 := snd (collide p1 p2) in
  0 < overlap /\
  nx * nx + ny * ny = 1 /\
  x q1 = x p1 - nx * (overlap / 2) /\ y q1 = y p1 - ny * (overlap / 2) /\
  x q2 = x p2 + nx * (overlap / 2) /\ y q2 = y p2 + ny * (overlap / 2).
Proof.
  intros Hs Ho Hd d overlap nx ny q1 q2.
  pose proof (distance_sqr p1 p2) as Hsq. fold d in Hsq, Hd.
  assert (Hd0 : 0 < d) by lra.
  assert (Hm : d < size p1 + size p2).
  { unfold overlapping in Ho. rewrite <- Hsq in Ho.
    destruct (Rlt_dec d (size p1 + size p2)) as [L|L]; [exact L|].
    exfalso. apply Rnot_lt_le in L.
    assert (A : (size p1 + size p2) * (size p1 + size p2) <= d * d)
      by (apply Rmult_le_compat; lra).
    lra. }
  assert (Hn : nx * nx + ny * ny = 1).
  { unfold nx, ny.
    replace ((x p2 - x p1) / d * ((x p2 - x p1) / d)
             + (y p2 - y p1) / d * ((y p2 - y p1) / d))
      with (distSq p1 p2 / (d * d)) by (unfold distSq; field; lra).
    rewrite <- Hsq. field. lra. }
  assert (E : collide p1 p2 =
    (setPosition p1 (x p1 - nx * overlap * (5 / 10))
                    (y p1 - ny * overlap * (5 / 10)),
     setPosition p2 (x p2 + nx * overlap * (5 / 10))
                    (y p2 + ny * overlap * (5 / 10)))).
  { rewrite collide_unfold, Rltb_true by exact Ho.
    rewrite Rltb_true by exact Hd. reflexivity. }
  unfold q1, q2. rewrite E. simpl fst; simpl snd.
  repeat split; try (simpl; lra); try (unfold overlap; lra).
Qed.

(** *** The pairs the collision pass examines *)

Lemma quiet_of_indices (i0 : nat) (ps : list (Particle R)) :
  (forall i j pi pj, (i < j)%nat -> Nat.even (i0 + i) = true ->
     nth_error ps i = Some pi -> nth_error ps j = Some pj ->
     ~ overlapping pi pj) ->
  quiet i0 ps.
Proof.
  revert i0; induction ps as [|p1 rest IH]; intros i0 Hq; simpl; [exact I|].
  split.
  - intros He. apply Forall_forall. intros p2 Hin.
    destruct (In_nth_error _ _ Hin) as [j Hj].
    apply (Hq 0%nat (S j) p1 p2); try reflexivity; try assumption; try lia.
    now rewrite Nat.add_0_r.
  - apply IH. intros i j pi pj Hij He Hi Hj.
    apply (Hq (S i) (S j) pi pj); try assumption; try lia.
    now rewrite Nat.add_succ_r.
Qed.

Lemma collideWithRest_clear (p1 : Particle R) (rest : list (Particle R)) :
  Forall (fun p2 => ~ overlapping p1 p2) rest ->
  collideWithRest p1 rest = (p1, rest).
Proof.
  induction 1 as [|p2 rest Hn _ IH]; simpl; [reflexivity|].
  now rewrite (collide_apart Hn), IH.
Qed.

(** When no examined pair overlaps, the pass only damps and moves. *)
Lemma collisionLoop_quiet (rgb : Z * Z * Z) (n i k : nat)
  (ps : list (Particle R)) :
  n = List.length ps -> quiet i ps ->
  fst (collisionLoop Math_random rgb n i k ps) = map (@integrate R _) ps.
Proof.
  revert i k ps; induction n as [|n IH]; intros i k [|p1 rest] Hn Hq;
    simpl in Hn; try discriminate; try reflexivity.
  injection Hn as Hn. destruct Hq as [Hh Ht].
  cbn [collisionLoop].
  assert (E : (if Nat.even i then collideWithRest p1 rest else (p1, rest))
              = (p1, rest)).
  { destruct (Nat.even i); [|reflexivity].
    apply collideWithRest_clear, Hh; reflexivity. }
  rewrite E.
  specialize (IH (S i) (S k) rest Hn Ht).
  destruct (collisionLoop Math_random rgb n (S i) (S k) rest) as [ps' cmds].
  simpl in *. now rewrite IH.
Qed.

(** *** Mouse repulsion *)

Lemma mouseInteraction_unfold (m : MouseState R) (p : Particle R) :
  mouseInteraction m p =
  if isActive m && Rltb (pointerDistance m p) 250 then
    setVelocity p
      (vx p - (mouse_x m - x p) / pointerDistance m p
              * ((250 - pointerDistance m p) / 250 * (12 / 10)) * 5)
      (vy p - (mouse_y m - y p) / pointerDistance m p
              * ((250 - pointerDistance m p) / 250 * (12 / 10)) * 5)
  else p.
Proof. reflexivity. Qed.

(** No repulsion from an inactive pointer, or at 250 or more. *)
Lemma mouseInteraction_none (m : MouseState R) (p : Particle R) :
  isActive m = false \/ 250 <= pointerDistance m p ->
  mouseInteraction m p = p.
Proof.
  intros [Hi|Hd]; rewrite mouseInteraction_unfold.
  - now rewrite Hi.
  - rewrite Rltb_false by exact Hd. now rewrite andb_false_r.
Qed.

(** An active pointer at distance [d], [0 < d < 250], adds to the
    velocity a vector of magnitude [(250 - d) / 250 * 1.2 * 5] along the
    unit vector from the pointer to the particle. *)
Lemma mouseInteraction_repels (m : MouseState R) (p : Particle R) :
  isActive m = true ->
  0 < pointerDistance m p < 250 ->
  let d := pointerDistance m p in
  let magnitude := (250 - d) / 250 * (12 / 10) * 5 in
  let ux := (x p - mouse_x m) / d in
  let uy := (y p - mouse_y m) / d in
  let q := mouseInteraction m p in
  ux * ux + uy * uy = 1 /\
  0 < magnitude /\
  vx q = vx p + magnitude * ux /\
  vy q = vy p + magnitude * uy /\
  sqrt ((vx q - vx p) * (vx q - vx p) + (vy q - vy p) * (vy q - vy p))
  = magnitude.
Proof.
  intros Ha [Hd0 Hd1] d magnitude ux uy q.
  assert (Hsq : d * d = (mouse_x m - x p) * (mouse_x m - x p)
                        + (mouse_y m - y p) * (mouse_y m - y p)).
  { apply sqrt_sqrt.
    pose proof (Rle_0_sqr (mouse_x m - x p)) as Hx.
    pose proof (Rle_0_sqr (mouse_y m - y p)) as Hy.
    unfold Rsqr in Hx, Hy. lra. }
  fold d in Hd0, Hd1.
  assert (Hu : ux * ux + uy * uy = 1).
  { unfold ux, uy.
    replace ((x p - mouse_x m) / d * ((x p - mouse_x m) / d)
             + (y p - mouse_y m) / d * ((y p - mouse_y m) / d))
      with (((mouse_x m - x p) * (mouse_x m - x p)
             + (mouse_y m - y p) * (mouse_y m - y p)) / (d * d))
      by (field; lra).
    rewrite <- Hsq. field. lra. }
  assert (Hm : 0 < magnitude) by (unfold magnitude; lra).
  assert (Hvx : vx q = vx p + magnitude * ux).
  { unfold q. rewrite mouseInteraction_unfold, Ha, Rltb_true by exact Hd1.
    simpl. fold d. unfold magnitude, ux. field. lra. }
  assert (Hvy : vy q = vy p + magnitude * uy).
  { unfold q. rewrite mouseInteraction_unfold, Ha, Rltb_true by exact Hd1.
    simpl. fold d. unfold magnitude, uy. field. lra. }
  repeat split; try assumption.
  rewrite Hvx, Hvy.
  replace ((vx p + magnitude * ux - vx p) * (vx p + magnitude * ux - vx p)
           + (vy p + magnitude * uy - vy p) * (vy p + magnitude * uy - vy p))
    with ((ux * ux + uy * uy) * (magnitude * magnitude)) by ring.
  rewrite Hu, Rmult_1_l. apply sqrt_square. lra.
Qed.

(** The force factor at distance 100. *)
Lemma force_factor_100 : (MOUSE_RADIUS - 100) / MOUSE_RADIUS = 6 / 10.
Proof. rewrite MOUSE_RADIUS_R. lra. Qed.

(** *** Frames without applied forces *)

Lemma Particle_ext (p q : Particle R) :
  x p = x q -> y p = y q -> originX p = originX q -> originY p = originY q ->
  vx p = vx q -> vy p = vy q -> size p = size q -> color p = color q ->
  angle p = angle q -> p = q.
Proof. destruct p, q; simpl; intros; subst; reflexivity. Qed.

Lemma applyForces_free (m : MouseState R) (f : R) (p : Particle R) :
  isActive m = false -> f = 0 ->
  integrate (applyForces m f p) = freeStep p.
Proof.
  intros Hi Hf. unfold applyForces, freeStep.
  rewrite mouseInteraction_none by (left; exact Hi). subst f.
  apply Particle_ext; simpl; try reflexivity; lra.
Qed.

Lemma quiet_map (g : Particle R -> Particle R) (i : nat)
  (ps : list (Particle R)) :
  (forall p, x (g p) = x p /\ y (g p) = y p /\ size (g p) = size p) ->
  quiet i ps -> quiet i (map g ps).
Proof.
  intros Hg. revert i; induction ps as [|p1 rest IH]; intros i; simpl;
    [trivial|].
  intros [Hh Ht]. split; [|apply IH, Ht].
  intros He. specialize (Hh He). apply Forall_map.
  eapply Forall_impl; [|exact Hh].
  intros p2 Hn. unfold overlapping, distSq in *.
  destruct (Hg p1) as (-> & -> & ->). destruct (Hg p2) as (-> & -> & ->).
  exact Hn.
Qed.

Lemma applyForces_position (m : MouseState R) (f : R) (p : Particle R) :
  x (applyForces m f p) = x p /\ y (applyForces m f p) = y p /\
  size (applyForces m f p) = size p.
Proof.
  unfold applyForces, springForce, scrollInteraction. simpl.
  rewrite mouseInteraction_unfold.
  destruct (isActive m && _); repeat split.
Qed.

Lemma animate_free (c : R) (env : FrameEnv R) (time : R) (s : Sim R) :
  calm c s -> steady c env -> quiet 0 (particles s) ->
  particles (next (animate Math_sin Math_random env time s))
  = map freeStep (particles s)
  /\ calm c (next (animate Math_sin Math_random env time s)).
Proof.
  intros [Hi Hc] [Ha Hs] Hq. unfold available in Ha. unfold animate.
  destruct (canvasRef env) as [canvas|]; [|discriminate].
  rewrite Ha. cbn [negb].
  destruct (scrollRef env) as [el|].
  - match goal with
    | |- context [collisionLoop ?r ?c ?n ?i ?k ?ps] =>
        pose proof (@collisionLoop_quiet c n i k ps eq_refl) as E;
        destruct (collisionLoop r c n i k ps) as [ps' cmds]
    end.
    cbn [next particles mouse lastScrollTop fst] in *.
    split; [|split; assumption].
    rewrite E by (apply quiet_map; [apply applyForces_position|exact Hq]).
    rewrite map_map. apply map_ext. intros p.
    apply applyForces_free; [exact Hi|].
    rewrite Hs, Hc.
    change ((- (c - c)) * (5 / 100) = 0). lra.
  - match goal with
    | |- context [collisionLoop ?r ?c ?n ?i ?k ?ps] =>
        pose proof (@collisionLoop_quiet c n i k ps eq_refl) as E;
        destruct (collisionLoop r c n i k ps) as [ps' cmds]
    end.
    cbn [next particles mouse lastScrollTop fst] in *.
    split; [|split; assumption].
    rewrite E by (apply quiet_map; [apply applyForces_position|exact Hq]).
    rewrite map_map. apply map_ext. intros p.
    apply applyForces_free; [exact Hi|].
    change ((- 0) * (5 / 100) = 0). lra.
Qed.

(** The fields of a particle after a frame in which only the spring
    acts. *)
Lemma freeStep_fields (p : Particle R) :
  vx (freeStep p) = (vx p + (originX p - x p) * (5 / 100)) * (92 / 100) /\
  vy (freeStep p) = (vy p + (originY p - y p) * (5 / 100)) * (92 / 100) /\
  x (freeStep p) = x p + vx (freeStep p) /\
  y (freeStep p) = y p + vy (freeStep p) /\
  originX (freeStep p) = originX p /\
  originY (freeStep p) = originY p.
Proof. repeat split. Qed.

Lemma speed_sqr (p : Particle R) :
  speed p * speed p = vx p * vx p + vy p * vy p.
Proof.
  apply sqrt_sqrt.
  pose proof (Rle_0_sqr (vx p)) as Hx. pose proof (Rle_0_sqr (vy p)) as Hy.
  unfold Rsqr in Hx, Hy. lra.
Qed.

Lemma speed_nonneg (p : Particle R) : 0 <= speed p.
Proof. apply sqrt_pos. Qed.

(** On its origin, a particle only has its velocity damped. *)
Lemma freeStep_at_origin (p : Particle R) :
  x p = originX p -> y p = originY p ->
  vx (freeStep p) = 92 / 100 * vx p /\
  vy (freeStep p) = 92 / 100 * vy p /\
  speed (freeStep p) = 92 / 100 * speed p.
Proof.
  intros Hx Hy.
  destruct (freeStep_fields p) as (Vx & Vy & _).
  rewrite Hx in Vx. rewrite Hy in Vy.
  assert (Vx' : vx (freeStep p) = 92 / 100 * vx p) by (rewrite Vx; lra).
  assert (Vy' : vy (freeStep p) = 92 / 100 * vy p) by (rewrite Vy; lra).
  repeat split; try assumption.
  unfold speed at 1. rewrite Vx', Vy'.
  change (sqrt (92 / 100 * vx p * (92 / 100 * vx p)
                + 92 / 100 * vy p * (92 / 100 * vy p))
          = 92 / 100 * speed p).
  replace (92 / 100 * vx p * (92 / 100 * vx p)
           + 92 / 100 * vy p * (92 / 100 * vy p))
    with ((92 / 100 * speed p) * (92 / 100 * speed p))
    by (transitivity (92 / 100 * (92 / 100) * (speed p * speed p));
        [ring|rewrite speed_sqr; ring]).
  apply sqrt_square. pose proof (speed_nonneg p). lra.
Qed.

Lemma energy_freeStep (p : Particle R) :
  energy (freeStep p) = 92 / 100 * energy p.
Proof.
  unfold energy, form.
  destruct (freeStep_fields p) as (Vx & Vy & X & Y & Ox & Oy).
  rewrite X, Y, Ox, Oy, Vx, Vy. field.
Qed.

Lemma form_bound (v u : R) : 9 / 10 * (v * v) <= form v u.
Proof.
  unfold form.
  pose proof (Rle_0_sqr (v + 85 / 100 * u)) as H1.
  pose proof (Rle_0_sqr u) as H2.
  unfold Rsqr in H1, H2. lra.
Qed.

Lemma speed_energy (p : Particle R) :
  speed p * speed p <= 10 / 9 * energy p.
Proof.
  rewrite speed_sqr. unfold energy.
  pose proof (form_bound (vx p) (x p - originX p)).
  pose proof (form_bound (vy p) (y p - originY p)).
  lra.
Qed.

Lemma energy_iter (n : nat) (p : Particle R) :
  energy (Nat.iter n freeStep p) = (92 / 100) ^ n * energy p.
Proof.
  induction n as [|n IH]; simpl; [ring|].
  rewrite energy_freeStep, IH. ring.
Qed.

(** A lone particle, left alone, goes through [freeStep] each frame. *)
Lemma run_single (c : R) (frames : list (FrameEnv R * R)) (s : Sim R)
  (p : Particle R) :
  calm c s -> Forall (fun f => steady c (fst f)) frames ->
  particles s = [p] ->
  particles (run Math_sin Math_random frames s) = [Nat.iter (List.length frames) freeStep p].
Proof.
  intros Hc Hf. revert s p Hc.
  induction Hf as [|f frames Hs _ IH]; intros s p Hc Hp.
  - exact Hp.
  - assert (Hq : quiet 0 (particles s))
      by (rewrite Hp; simpl; repeat split; constructor).
    destruct (animate_free (snd f) Hc Hs Hq) as [E Hc'].
    rewrite Hp in E. cbn [map] in E.
    change (particles
              (run Math_sin Math_random frames
                 (next (animate Math_sin Math_random (fst f) (snd f) s)))
            = [Nat.iter (S (List.length frames)) freeStep p]).
    rewrite (IH _ _ Hc' E). f_equal.
    symmetry. apply Nat.iter_succ_r.
Qed.

Lemma run_single_bound (c : R) (frames : list (FrameEnv R * R)) (s : Sim R)
  (p : Particle R) :
  calm c s -> Forall (fun f => steady c (fst f)) frames ->
  particles s = [p] -> x p = originX p -> y p = originY p ->
  exists p', particles (run Math_sin Math_random frames s) = [p'] /\
    speed p' * speed p'
    <= (92 / 100) ^ List.length frames * (92 / 90 * (speed p * speed p)).
Proof.
  intros Hc Hf Hp Hx Hy.
  exists (Nat.iter (List.length frames) freeStep p).
  split; [apply (run_single Hc Hf Hp)|].
  eapply Rle_trans; [apply speed_energy|].
  rewrite energy_iter.
  assert (E : energy p = 92 / 100 * (speed p * speed p)).
  { rewrite speed_sqr. unfold energy, form. rewrite Hx, Hy. field. }
  rewrite E. lra.
Qed.

(** X19.  A lone particle released on its origin with some velocity,
    the pointer inactive and no scroll: from the second frame on it is
    off its origin and the spring acts on it, and the squared speed
    after [n] frames is at most [0.92^n * 92/90] times the initial one,
    so that the speed converges to zero. *)
Theorem lone_particle_settles :
  (forall (c : R) (frames : list (FrameEnv R * R)) (s : Sim R)
          (p : Particle R),
     calm c s -> Forall (fun f => steady c (fst f)) frames ->
     particles s = [p] -> x p = originX p -> y p = originY p ->
     exists p', particles (run Math_sin Math_random frames s) = [p'] /\
       speed p' * speed p'
       <= (92 / 100) ^ List.length frames * (92 / 90 * (speed p * speed p)))
  /\
  (forall (c : R) (s : Sim R) (p : Particle R) (eps : R),
     calm c s -> particles s = [p] -> x p = originX p -> y p = originY p ->
     0 < eps ->
     exists N : nat, forall frames : list (FrameEnv R * R),
       (N <= List.length frames)%nat ->
       Forall (fun f => steady c (fst f)) frames ->
       exists p', particles (run Math_sin Math_random frames s) = [p'] /\ speed p' < eps).
Proof.
  split.
  - intros c frames s p. apply run_single_bound.
  - intros c s p eps Hc Hp Hx Hy He.
    set (K := 92 / 90 * (speed p * speed p)).
    assert (HK : 0 <= K).
    { unfold K. pose proof (Rle_0_sqr (speed p)) as H0.
      unfold Rsqr in H0. lra. }
    assert (Hb : Rabs (92 / 100) < 1) by (rewrite Rabs_pos_eq; lra).
    assert (Ht : 0 < eps * eps / (K + 1)).
    { apply Rdiv_lt_0_compat; [nra|lra]. }
    destruct (pow_lt_1_zero (92 / 100) Hb _ Ht) as [N HN].
    exists N. intros frames Hlen Hf.
    destruct (run_single_bound Hc Hf Hp Hx Hy) as (p' & Ep & Hs).
    exists p'. split; [exact Ep|].
    fold K in Hs.
    specialize (HN (List.length frames) Hlen).
    assert (Hpow : 0 < (92 / 100) ^ List.length frames)
      by (apply pow_lt; lra).
    rewrite Rabs_pos_eq in HN by lra.
    assert (Hlt : (92 / 100) ^ List.length frames * (K + 1) < eps * eps).
    { apply (Rmult_lt_compat_r (K + 1)) in HN; [|lra].
      replace (eps * eps / (K + 1) * (K + 1)) with (eps * eps) in HN
        by (field; lra).
      exact HN. }
    assert (Hsq : speed p' * speed p' < eps * eps) by nra.
    pose proof (speed_nonneg p') as Hp0.
    destruct (Rlt_dec (speed p') eps) as [L|L]; [exact L|].
    exfalso. apply Rnot_lt_le in L.
    assert (eps * eps <= speed p' * speed p')
      by (apply Rmult_le_compat; lra).
    lra.
Qed.

End Exact.

(** ** Properties in binary64

    The definitions evaluated in the arithmetic the program runs in. *)

Section Binary64.

Variable Math_sin : float -> float.
Variable Math_random : nat -> float.

(** C6, at the input where the code departs from it.  The pointer is
    active and exactly on a particle: the distance is 0, which is below
    250, the direction is 0 / 0, and the velocity of the particle becomes
    NaN in both components, where the stated repulsion has magnitude
    [(250 - 0) / 250 * 1.2 * 5 = 6]. *)
Theorem mouseInteraction_at_pointer :
  let p := atRest (lit 300) (lit 200) in
  let m := pointerAt (lit 300) (lit 200) in
  let dx := (mouse_x m - x p)%js in
  let dy := (mouse_y m - y p)%js in
  let d := Math_sqrt (dx * dx + dy * dy)%js in
  let q := mouseInteraction m p in
  PrimFloat.is_zero d = true /\
  (d <? MOUSE_RADIUS)%js = true /\
  PrimFloat.is_nan (dx / d)%js = true /\
  PrimFloat.is_nan (vx q) = true /\
  PrimFloat.is_nan (vy q) = true.
Proof. vm_compute. repeat split. Qed.

(** C10.  There is an input on which the mouse repulsion is not
    numerically safe.  With the active pointer exactly on a particle, a
    frame leaves that particle with NaN velocity and NaN position, and
    the next frame keeps them so; the origin is untouched.  The
    distance-zero case has no guard here, whereas the collision pass
    leaves two particles at the same place alone. *)
Theorem mouse_repulsion_unguarded :
  let p := atRest (lit 300) (lit 200) in
  let s := withPointer (pointerAt (lit 300) (lit 200)) [p] in
  let s1 := next (animate Math_sin Math_random plainEnv (lit 16) s) in
  let s2 := next (animate Math_sin Math_random plainEnv (lit 32) s1) in
  map allNaN (particles s1) = [true] /\
  map allNaN (particles s2) = [true] /\
  map origin (particles s1) = [(lit 300, lit 200)] /\
  collide p (atRest (lit 300) (lit 200)) = (p, atRest (lit 300) (lit 200)).
Proof. vm_compute. repeat split. Qed.

End Binary64.

(** ** Instances *)

Section Instances.

Local Open Scope R_scope.

Lemma calm_inert (ps : list (Particle R)) : calm 0 (inert ps).
Proof. split; reflexivity. Qed.

Lemma steady_drawable : steady 0 drawable.
Proof. split; [reflexivity|exact I]. Qed.

Lemma quiet_row : quiet 0 row.
Proof.
  unfold row. cbn [quiet].
  split; [intros _|split; [intros E; simpl in E; discriminate E|]].
  - repeat constructor; unfold overlapping, distSq; simpl; lra.
  - split; [intros _; constructor|exact I].
Qed.

(** C2 fails on the code: the particles of index 1 and 2 overlap, and the
    pass leaves both where they were, still overlapping. *)
Lemma odd_pair_unresolved :
  let ps' := fst (collisionLoop noRandom (66, 133, 244)%Z 3 0 0 row) in
  (1 < 2)%nat /\
  nth_error row 1 = Some (moving 10 0 0) /\
  nth_error row 2 = Some (moving 11 0 0) /\
  overlapping (moving 10 0 0) (moving 11 0 0) /\
  exists q1 q2 : Particle R,
    nth_error ps' 1 = Some q1 /\ nth_error ps' 2 = Some q2 /\
    x q1 = 10 /\ y q1 = 0 /\ x q2 = 11 /\ y q2 = 0 /\
    overlapping q1 q2.
Proof.
  intros ps'.
  assert (E : ps' = map (@integrate R _) row)
    by (apply collisionLoop_quiet; [reflexivity|exact quiet_row]).
  split; [lia|]. split; [reflexivity|]. split; [reflexivity|].
  split; [unfold overlapping, distSq; simpl; lra|].
  exists (integrate (moving 10 0 0)), (integrate (moving 11 0 0)).
  rewrite E.
  assert (D : @DAMPING R _ = 92 / 100) by reflexivity.
  repeat split; try reflexivity;
    try (unfold overlapping, distSq); simpl; rewrite ?D; lra.
Qed.

(** *** A lone particle over eight frames *)

Lemma freeStep_track (p : Particle R) :
  vx (freeStep p) = 92 / 100 * vx p - 46 / 1000 * (x p - originX p) /\
  x (freeStep p) - originX (freeStep p)
  = (x p - originX p) + vx (freeStep p) /\
  vy (freeStep p) = 92 / 100 * vy p - 46 / 1000 * (y p - originY p) /\
  y (freeStep p) - originY (freeStep p)
  = (y p - originY p) + vy (freeStep p).
Proof.
  destruct (freeStep_fields p) as (Vx & Vy & X & Y & Ox & Oy).
  rewrite X, Y, Ox, Oy. rewrite Vx, Vy. repeat split; lra.
Qed.

(** The velocity of a particle started on its origin with velocity
    [(1, 0)], after seven and after eight frames. *)
Lemma orbit_7_8 :
  let p := moving 0 0 1 in
  (vx (Nat.iter 7 freeStep p) = - 5786330573088693 / 390625000000000000 /\ vy (Nat.iter 7 freeStep p) = 0) /\
  (vx (Nat.iter 8 freeStep p) = - 32714637543876635341 / 195312500000000000000 /\ vy (Nat.iter 8 freeStep p) = 0).
Proof.
  intros p.
  assert (T0 : vx (Nat.iter 0 freeStep p) = 1 /\
               x (Nat.iter 0 freeStep p) - originX (Nat.iter 0 freeStep p) = 0 /\
               vy (Nat.iter 0 freeStep p) = 0 /\
               y (Nat.iter 0 freeStep p) - originY (Nat.iter 0 freeStep p) = 0)
    by (simpl; repeat split; lra).
  pose proof (freeStep_track (Nat.iter 0 freeStep p)) as (Vx & Xx & Vy & Yy).
  assert (T1 : vx (Nat.iter 1 freeStep p) = 23 / 25 /\
              x (Nat.iter 1 freeStep p) - originX (Nat.iter 1 freeStep p)
              = 23 / 25 /\
              vy (Nat.iter 1 freeStep p) = 0 /\
              y (Nat.iter 1 freeStep p) - originY (Nat.iter 1 freeStep p) = 0).
  { change (Nat.iter 1 freeStep p) with (freeStep (Nat.iter 0 freeStep p)).
    destruct T0 as (A & B & C & D). repeat split; lra. }
  clear Vx Xx Vy Yy T0.
  pose proof (freeStep_track (Nat.iter 1 freeStep p)) as (Vx & Xx & Vy & Yy).
  assert (T2 : vx (Nat.iter 2 freeStep p) = 10051 / 12500 /\
              x (Nat.iter 2 freeStep p) - originX (Nat.iter 2 freeStep p)
              = 21551 / 12500 /\
              vy (Nat.iter 2 freeStep p) = 0 /\
              y (Nat.iter 2 freeStep p) - originY (Nat.iter 2 freeStep p) = 0).
  { change (Nat.iter 2 freeStep p) with (freeStep (Nat.iter 1 freeStep p)).
    destruct T1 as (A & B & C & D). repeat split; lra. }
  clear Vx Xx Vy Yy T1.
  pose proof (freeStep_track (Nat.iter 2 freeStep p)) as (Vx & Xx & Vy & Yy).
  assert (T3 : vx (Nat.iter 3 freeStep p) = 4127787 / 6250000 /\
              x (Nat.iter 3 freeStep p) - originX (Nat.iter 3 freeStep p)
              = 14903287 / 6250000 /\
              vy (Nat.iter 3 freeStep p) = 0 /\
              y (Nat.iter 3 freeStep p) - originY (Nat.iter 3 freeStep p) = 0).
  { change (Nat.iter 3 freeStep p) with (freeStep (Nat.iter 2 freeStep p)).
    destruct T2 as (A & B & C & D). repeat split; lra. }
  clear Vx Xx Vy Yy T2.
  pose proof (freeStep_track (Nat.iter 3 freeStep p)) as (Vx & Xx & Vy & Yy).
  assert (T4 : vx (Nat.iter 4 freeStep p) = 1556006419 / 3125000000 /\
              x (Nat.iter 4 freeStep p) - originX (Nat.iter 4 freeStep p)
              = 9007649919 / 3125000000 /\
              vy (Nat.iter 4 freeStep p) = 0 /\
              y (Nat.iter 4 freeStep p) - originY (Nat.iter 4 freeStep p) = 0).
  { change (Nat.iter 4 freeStep p) with (freeStep (Nat.iter 3 freeStep p)).
    destruct T3 as (A & B & C & D). repeat split; lra. }
  clear Vx Xx Vy Yy T3.
  pose proof (freeStep_track (Nat.iter 4 freeStep p)) as (Vx & Xx & Vy & Yy).
  assert (T5 : vx (Nat.iter 5 freeStep p) = 508587004603 / 1562500000000 /\
              x (Nat.iter 5 freeStep p) - originX (Nat.iter 5 freeStep p)
              = 5012411964103 / 1562500000000 /\
              vy (Nat.iter 5 freeStep p) = 0 /\
              y (Nat.iter 5 freeStep p) - originY (Nat.iter 5 freeStep p) = 0).
  { change (Nat.iter 5 freeStep p) with (freeStep (Nat.iter 4 freeStep p)).
    destruct T4 as (A & B & C & D). repeat split; lra. }
  clear Vx Xx Vy Yy T4.
  pose proof (freeStep_track (Nat.iter 5 freeStep p)) as (Vx & Xx & Vy & Yy).
  assert (T6 : vx (Nat.iter 6 freeStep p) = 118664546943011 / 781250000000000 /\
              x (Nat.iter 6 freeStep p) - originX (Nat.iter 6 freeStep p)
              = 2624870528994511 / 781250000000000 /\
              vy (Nat.iter 6 freeStep p) = 0 /\
              y (Nat.iter 6 freeStep p) - originY (Nat.iter 6 freeStep p) = 0).
  { change (Nat.iter 6 freeStep p) with (freeStep (Nat.iter 5 freeStep p)).
    destruct T5 as (A & B & C & D). repeat split; lra. }
  clear Vx Xx Vy Yy T5.
  pose proof (freeStep_track (Nat.iter 6 freeStep p)) as (Vx & Xx & Vy & Yy).
  assert (T7 : vx (Nat.iter 7 freeStep p) = - 5786330573088693 / 390625000000000000 /\
              x (Nat.iter 7 freeStep p) - originX (Nat.iter 7 freeStep p)
              = 1306648933924166807 / 390625000000000000 /\
              vy (Nat.iter 7 freeStep p) = 0 /\
              y (Nat.iter 7 freeStep p) - originY (Nat.iter 7 freeStep p) = 0).
  { change (Nat.iter 7 freeStep p) with (freeStep (Nat.iter 6 freeStep p)).
    destruct T6 as (A & B & C & D). repeat split; lra. }
  clear Vx Xx Vy Yy T6.
  pose proof (freeStep_track (Nat.iter 7 freeStep p)) as (Vx & Xx & Vy & Yy).
  assert (T8 : vx (Nat.iter 8 freeStep p) = - 32714637543876635341 / 195312500000000000000 /\
              vy (Nat.iter 8 freeStep p) = 0).
  { change (Nat.iter 8 freeStep p) with (freeStep (Nat.iter 7 freeStep p)).
    destruct T7 as (A & B & C & D). repeat split; lra. }
  clear Vx Xx Vy Yy.
  destruct T7 as (A & _ & C & _). destruct T8 as (A' & C').
  repeat split; assumption.
Qed.

(** A lone particle, on its origin with velocity [(1, 0)], the pointer
    inactive and no scroll: after the first frame its velocity is 0.92 of
    what it was, and the particle is off its origin; from then on the
    spring acts on it, the second frame does not multiply the velocity
    by 0.92, and the speed after the eighth frame is larger than after
    the seventh. *)
Lemma speed_not_monotone :
  let p := moving 0 0 1 in
  let s := inert [p] in
  let after n := run noSin noRandom (repeat (drawable, 0) n) s in
  isActive (mouse s) = false /\
  scrollRef drawable = None /\
  (x p = originX p /\ y p = originY p) /\
  speed p = 1 /\
  exists p1 p2 p7 p8 : Particle R,
    particles (after 1%nat) = [p1] /\
    particles (after 2%nat) = [p2] /\
    particles (after 7%nat) = [p7] /\
    particles (after 8%nat) = [p8] /\
    vx p1 = 92 / 100 * vx p /\
    x p1 - originX p1 = 92 / 100 /\
    vx p2 < 92 / 100 * vx p1 /\
    speed p7 < speed p8.
Proof.
  intros p s after.
  assert (Hrun : forall n, particles (after n) = [Nat.iter n freeStep p]).
  { intros n. unfold after.
    rewrite (@run_single noSin noRandom 0 (repeat (drawable, 0) n) s p).
    - now rewrite repeat_length.
    - apply calm_inert.
    - apply Forall_forall. intros f Hf. apply repeat_spec in Hf. subst f.
      apply steady_drawable.
    - reflexivity. }
  split; [reflexivity|]. split; [reflexivity|].
  split; [split; reflexivity|].
  split.
  { unfold speed. simpl.
    replace (1 * 1 + 0 * 0) with 1 by ring. apply sqrt_1. }
  exists (Nat.iter 1 freeStep p), (Nat.iter 2 freeStep p),
         (Nat.iter 7 freeStep p), (Nat.iter 8 freeStep p).
  rewrite !Hrun.
  destruct orbit_7_8 as ((A7 & C7) & (A8 & C8)). fold p in A7, C7, A8, C8.
  pose proof (freeStep_track p) as (Vx1 & Xx1 & _).
  pose proof (freeStep_track (freeStep p)) as (Vx2 & _).
  change (Nat.iter 1 freeStep p) with (freeStep p).
  change (Nat.iter 2 freeStep p) with (freeStep (freeStep p)).
  assert (B0 : vx p = 1 /\ x p - originX p = 0) by (simpl; split; lra).
  destruct B0 as (B0 & B1).
  repeat split; try reflexivity; try lra.
  assert (S7 : speed (Nat.iter 7 freeStep p)
               = sqrt (vx (Nat.iter 7 freeStep p) * vx (Nat.iter 7 freeStep p)
                       + vy (Nat.iter 7 freeStep p)
                         * vy (Nat.iter 7 freeStep p))) by reflexivity.
  assert (S8 : speed (Nat.iter 8 freeStep p)
               = sqrt (vx (Nat.iter 8 freeStep p) * vx (Nat.iter 8 freeStep p)
                       + vy (Nat.iter 8 freeStep p)
                         * vy (Nat.iter 8 freeStep p))) by reflexivity.
  rewrite S7, S8, A7, C7, A8, C8.
  apply sqrt_lt_1_alt. split; lra.
Qed.

(** *** The theorems at concrete inputs *)

Lemma distance_unit : distance (moving 0 0 0) (moving 1 0 0) = 1.
Proof.
  unfold distance, distSq; simpl.
  replace ((1 - 0) * (1 - 0) + (0 - 0) * (0 - 0)) with 1 by ring.
  apply sqrt_1.
Qed.

Lemma lone_particle_settles_witness :
  exists p',
    particles (run noSin noRandom [(drawable, 0); (drawable, 16)]
                 (inert [moving 0 0 1])) = [p'] /\
    speed p' * speed p'
    <= (92 / 100) ^ 2 * (92 / 90 * (speed (moving 0 0 1) * speed (moving 0 0 1))).
Proof.
  refine (proj1 (lone_particle_settles noSin noRandom) 0
            [(drawable, 0); (drawable, 16)] (inert [moving 0 0 1])
            (moving 0 0 1) (calm_inert _) _ eq_refl eq_refl eq_refl).
  repeat constructor.
Defined.

Lemma origin_fixed_witness :
  let e := Frame drawable 16 in
  isResize e = false /\
  map (@origin R) (particles (handle noSin noRandom e (inert row)))
  = map (@origin R) (particles (inert row)).
Proof.
  intros e. split; [reflexivity|].
  apply (origin_fixed noSin noRandom e (inert row)). reflexivity.
Defined.

Lemma animate_unavailable_witness :
  let env := {| canvasRef := None; scrollRef := None; fpsRef := true;
                innerHeight := 600; rafId := 7 |} in
  @available R env = false /\
  animate noSin noRandom env 16 (inert row)
  = {| next := inert row; drawn := []; fpsText := None;
       requested := false |}.
Proof.
  intros env. split; [reflexivity|].
  apply (proj1 (proj1 (animate_unavailable noSin noRandom env 16 (inert row)))).
  reflexivity.
Defined.

End Instances.

(** ** Further properties, in any arithmetic *)

Section Populations.

Context {num : Type} `{JsNumber num}.
Variable Math_sin : num -> num.
Variable Math_random : nat -> num.

(** *** What the collision pass cannot change *)

Section Factor.

Variables A B : Type.
Variable f : Particle num -> A.
Variable g : Particle num -> B.
Variable h : A -> B.
Hypothesis f_setPosition : forall p x' y', f (setPosition p x' y') = f p.
Hypothesis g_integrate : forall p, g (integrate p) = h (f p).

Lemma collide_factor (p1 p2 : Particle num) :
  f (fst (collide p1 p2)) = f p1 /\ f (snd (collide p1 p2)) = f p2.
Proof.
  unfold collide.
  destruct (_ <? _)%js; [|split; reflexivity].
  destruct (_ >? _)%js; [|split; reflexivity].
  cbn [fst snd]. now rewrite !f_setPosition.
Qed.

Lemma collideWithRest_factor (p1 : Particle num) (rest : list (Particle num)) :
  f (fst (collideWithRest p1 rest)) = f p1 /\
  map f (snd (collideWithRest p1 rest)) = map f rest.
Proof.
  revert p1; induction rest as [|p2 rest IH]; intros p1; simpl.
  - split; reflexivity.
  - destruct (collide_factor p1 p2) as [E1 E2].
    destruct (collide p1 p2) as [p1' p2']; simpl in E1, E2.
    destruct (IH p1') as [E3 E4].
    destruct (collideWithRest p1' rest) as [p1'' rest'']; simpl in *.
    split; [congruence|].
    now rewrite E2, E4.
Qed.

Lemma collisionLoop_factor (rgb : Z * Z * Z) (n i k : nat)
  (ps : list (Particle num)) :
  n = List.length ps ->
  map g (fst (collisionLoop Math_random rgb n i k ps))
  = map (fun p => h (f p)) ps.
Proof.
  revert i k ps; induction n as [|n IH]; intros i k [|p1 rest] Hn;
    simpl in *; try reflexivity; try discriminate.
  injection Hn as Hn.
  pose proof (collideWithRest_factor p1 rest) as [E1 E2].
  pose proof (collideWithRest_length p1 rest) as EL.
  destruct (Nat.even i).
  - destruct (collideWithRest p1 rest) as [p1' rest']; simpl in *.
    assert (Hn' : n = List.length rest') by congruence.
    specialize (IH (S i) (S k) rest' Hn').
    destruct (collisionLoop Math_random rgb n (S i) (S k) rest') as [ps' cmds].
    simpl in *.
    rewrite g_integrate, E1, IH.
    f_equal. rewrite <- !(map_map f h). now rewrite E2.
  - specialize (IH (S i) (S k) rest Hn).
    destruct (collisionLoop Math_random rgb n (S i) (S k) rest) as [ps' cmds].
    simpl in *.
    now rewrite g_integrate, IH.
Qed.

End Factor.

Lemma collisionLoop_length (rgb : Z * Z * Z) (n i k : nat)
  (ps : list (Particle num)) :
  n = List.length ps ->
  List.length (fst (collisionLoop Math_random rgb n i k ps)) = List.length ps.
Proof.
  intros Hn.
  pose proof (@collisionLoop_factor unit unit (fun _ => tt) (fun _ => tt)
                (fun u => u) (fun _ _ _ => eq_refl) (fun _ => eq_refl)
                rgb n i k ps Hn) as E.
  apply (f_equal (@List.length unit)) in E.
  now rewrite !length_map in E.
Qed.

Lemma static_applyForces (m : MouseState num) (force : num)
  (p : Particle num) :
  static (applyForces m force p) = static p.
Proof.
  unfold applyForces, springForce, scrollInteraction, static; simpl.
  unfold mouseInteraction.
  destruct (isActive m && _); reflexivity.
Qed.

Lemma bgStatic_moveBackground (canvas : Canvas num) (force : num)
  (p : BackgroundParticle num) :
  bgStatic (moveBackground canvas force p) = bgStatic p.
Proof. reflexivity. Qed.

(** The parts of the state of a frame that the properties below follow. *)
Lemma animate_next (env : FrameEnv num) (time : num) (s : Sim num) :
  available env = true ->
  exists canvas rgb,
    canvasRef env = Some canvas /\
    particles (next (animate Math_sin Math_random env time s))
    = fst (collisionLoop Math_random rgb (List.length (particles s)) 0
             (randomCalls s)
             (map (applyForces (mouse s) (scrollForceOf env s))
                  (particles s))) /\
    backgroundParticles (next (animate Math_sin Math_random env time s))
    = map (moveBackground canvas (scrollForceOf env s))
          (backgroundParticles s) /\
    entityCount (next (animate Math_sin Math_random env time s))
    = entityCount s /\
    mouse (next (animate Math_sin Math_random env time s)) = mouse s.
Proof.
  intros Ha. unfold available in Ha. unfold animate, scrollForceOf.
  destruct (canvasRef env) as [canvas|]; [|discriminate].
  rewrite Ha. cbn [negb]. exists canvas.
  destruct (scrollRef env) as [el|].
  - eexists. split; [reflexivity|]. rewrite length_map.
    destruct (collisionLoop _ _ _ _ _ _) as [ps' cmds] eqn:E.
    cbn [next particles backgroundParticles entityCount mouse].
    repeat split. rewrite E. reflexivity.
  - eexists. split; [reflexivity|]. rewrite length_map.
    destruct (collisionLoop _ _ _ _ _ _) as [ps' cmds] eqn:E.
    cbn [next particles backgroundParticles entityCount mouse].
    repeat split. rewrite E. reflexivity.
Qed.

Lemma animate_skipped (env : FrameEnv num) (time : num) (s : Sim num) :
  available env = false ->
  animate Math_sin Math_random env time s = skipped s.
Proof.
  unfold available, animate.
  destruct (canvasRef env) as [canvas|]; [|reflexivity].
  now intros ->.
Qed.

(** *** Populations over any sequence of events *)

Lemma handle_kept (e : Event num) (s : Sim num) :
  repopulates e = false ->
  map static (particles (handle Math_sin Math_random e s))
  = map static (particles s) /\
  map bgStatic (backgroundParticles (handle Math_sin Math_random e s))
  = map bgStatic (backgroundParticles s) /\
  entityCount (handle Math_sin Math_random e s) = entityCount s.
Proof.
  destruct e as [container cv dpr|clientX clientY| |env time]; simpl.
  - destruct container as [r|]; [destruct cv as [c|]|];
      intros Hr; try discriminate Hr; repeat split.
  - intros _; repeat split.
  - intros _; repeat split.
  - intros _. destruct (available env) eqn:Ha.
    + destruct (animate_next env time s Ha)
        as (canvas & rgb & _ & Ep & Eb & Ee & _).
      rewrite Ep, Eb, Ee. repeat split.
      * rewrite (@collisionLoop_factor _ _ static static (fun a => a)
                   (fun _ _ _ => eq_refl) (fun _ => eq_refl))
          by now rewrite length_map.
        rewrite map_map. apply map_ext. intros p.
        apply static_applyForces.
      * rewrite map_map. apply map_ext. intros p.
        apply bgStatic_moveBackground.
    + rewrite (animate_skipped env time s Ha).
      repeat split.
Qed.

(** X4.  Through any sequence of events in which no resize finds both the
    container and the canvas, every foreground particle keeps its radius,
    color and angle, every background particle keeps its velocity, radius,
    alpha and phase, none is added or removed, and the reported entity
    count stays what it was. *)
Theorem populations_kept (events : list (Event num)) (s : Sim num) :
  Forall (fun e => repopulates e = false) events ->
  map static (particles (handleAll Math_sin Math_random events s))
  = map static (particles s) /\
  map bgStatic (backgroundParticles (handleAll Math_sin Math_random events s))
  = map bgStatic (backgroundParticles s) /\
  entityCount (handleAll Math_sin Math_random events s) = entityCount s.
Proof.
  intros Hf. revert s.
  induction Hf as [|e events He _ IH]; intros s.
  - repeat split.
  - change (handleAll Math_sin Math_random (e :: events) s)
      with (handleAll Math_sin Math_random events
              (handle Math_sin Math_random e s)).
    destruct (IH (handle Math_sin Math_random e s)) as (A & B & C).
    destruct (handle_kept e s He) as (A' & B' & C').
    rewrite A, B, C. repeat split; assumption.
Qed.

(** *** Rendering never feeds back into the simulation *)

Lemma collisionLoop_particles_irrelevant (random' : nat -> num)
  (rgb rgb' : Z * Z * Z) (n i k k' : nat) (ps : list (Particle num)) :
  fst (collisionLoop Math_random rgb n i k ps)
  = fst (collisionLoop random' rgb' n i k' ps).
Proof.
  revert i k k' ps; induction n as [|n IH]; intros i k k' [|p1 rest];
    try reflexivity.
  cbn [collisionLoop].
  destruct (if Nat.even i then collideWithRest p1 rest else (p1, rest))
    as [p1' rest'].
  specialize (IH (S i) (S k) (S k') rest').
  destruct (collisionLoop Math_random rgb n (S i) (S k) rest');
    destruct (collisionLoop random' rgb' n (S i) (S k') rest').
  simpl in *. now rewrite IH.
Qed.

(** X5.  The state a frame leaves, the FPS text it writes and whether it
    requests the next frame are the same whatever [Math.random] and
    [Math.sin] return: the sparkle, the twinkle and the pulse are drawn
    and never stored. *)
Theorem simulation_ignores_rendering (sin' : num -> num)
  (random' : nat -> num) (env : FrameEnv num) (time : num) (s : Sim num) :
  next (animate Math_sin Math_random env time s)
  = next (animate sin' random' env time s) /\
  fpsText (animate Math_sin Math_random env time s)
  = fpsText (animate sin' random' env time s) /\
  requested (animate Math_sin Math_random env time s)
  = requested (animate sin' random' env time s).
Proof.
  unfold animate.
  destruct (canvasRef env) as [canvas|]; [|repeat split].
  destruct (negb (has_context canvas)); [repeat split|].
  destruct (scrollRef env) as [el|];
    match goal with
    | |- context [collisionLoop Math_random ?c ?n ?i ?k ?ps] =>
        pose proof (collisionLoop_particles_irrelevant random' c c n i k k ps)
          as E;
        destruct (collisionLoop Math_random c n i k ps) as [ps1 cmds1];
        destruct (collisionLoop random' c n i k ps) as [ps2 cmds2]
    end;
    cbn [fst] in E; subst ps2; repeat split.
Qed.

(** *** Velocities *)

Lemma animate_velocities (env : FrameEnv num) (time : num) (s : Sim num) :
  available env = true ->
  map velocity (particles (next (animate Math_sin Math_random env time s)))
  = map (fun p => damp (velocity
                          (applyForces (mouse s) (scrollForceOf env s) p)))
        (particles s).
Proof.
  intros Ha.
  destruct (animate_next env time s Ha) as (canvas & rgb & _ & Ep & _).
  rewrite Ep.
  rewrite (@collisionLoop_factor _ _ velocity velocity damp
             (fun _ _ _ => eq_refl) (fun _ => eq_refl))
    by now rewrite length_map.
  now rewrite map_map.
Qed.

Lemma animate_lastScrollTop (env : FrameEnv num) (time : num) (s : Sim num) :
  available env = true ->
  lastScrollTop (next (animate Math_sin Math_random env time s))
  = match scrollRef env with
    | Some el => scrollTop el
    | None => lastScrollTop s
    end.
Proof.
  intros Ha. unfold available in Ha. unfold animate.
  destruct (canvasRef env) as [canvas|]; [|discriminate].
  rewrite Ha. cbn [negb].
  destruct (scrollRef env) as [el|];
    destruct (collisionLoop _ _ _ _ _ _); reflexivity.
Qed.

(** X6.  A collision moves the two particles and leaves their velocities as
    they are; in a frame, the velocity of every foreground particle is
    the one the forces gave it, multiplied by the damping factor once,
    whatever collisions the particle went through. *)
Theorem velocity_damped_once (env : FrameEnv num) (time : num) (s : Sim num) :
  available env = true ->
  (forall p1 p2 : Particle num,
     velocity (fst (collide p1 p2)) = velocity p1 /\
     velocity (snd (collide p1 p2)) = velocity p2) /\
  map velocity (particles (next (animate Math_sin Math_random env time s)))
  = map (fun p => damp (velocity
                          (applyForces (mouse s) (scrollForceOf env s) p)))
        (particles s).
Proof.
  intros Ha. split.
  - intros p1 p2. apply collide_factor. reflexivity.
  - exact (animate_velocities env time s Ha).
Qed.

(** *** What a frame draws *)

Lemma collisionLoop_drawn (rgb : Z * Z * Z) (n i k : nat)
  (ps : list (Particle num)) :
  n = List.length ps ->
  snd (collisionLoop Math_random rgb n i k ps)
  = map (fun jp => drawParticle Math_random rgb (fst jp) (snd jp))
        (combine (seq k n) (fst (collisionLoop Math_random rgb n i k ps))).
Proof.
  revert i k ps; induction n as [|n IH]; intros i k [|p1 rest] Hn;
    simpl in Hn; try discriminate; try reflexivity.
  injection Hn as Hn. cbn [collisionLoop].
  pose proof (collideWithRest_length p1 rest) as EL.
  destruct (Nat.even i).
  - destruct (collideWithRest p1 rest) as [p1' rest']; simpl in EL.
    assert (Hn' : n = List.length rest') by congruence.
    specialize (IH (S i) (S k) rest' Hn').
    destruct (collisionLoop Math_random rgb n (S i) (S k) rest') as [ps' cmds].
    simpl in *. now rewrite IH.
  - specialize (IH (S i) (S k) rest Hn).
    destruct (collisionLoop Math_random rgb n (S i) (S k) rest) as [ps' cmds].
    simpl in *. now rewrite IH.
Qed.

(** X13.  A frame that can draw clears the canvas, fills it with the gradient,
    then draws every background particle and every foreground particle
    once, each in the state the frame leaves it in, the foreground
    particles each with its own call of [Math.random]. *)
Theorem frame_drawn (env : FrameEnv num) (time : num) (s : Sim num) :
  available env = true ->
  let s' := next (animate Math_sin Math_random env time s) in
  exists (canvas : Canvas num) (rgb : Z * Z * Z) (gradient : FillStyle num),
    canvasRef env = Some canvas /\
    drawn (animate Math_sin Math_random env time s)
    = ClearRect (canvas_width canvas) (canvas_height canvas)
        :: FillRect gradient (canvas_width canvas) (canvas_height canvas)
        :: map (drawBackground Math_sin time) (backgroundParticles s')
        ++ map (fun jp => drawParticle Math_random rgb (fst jp) (snd jp))
             (combine (seq (randomCalls s) (List.length (particles s')))
                      (particles s')) /\
    List.length (particles s') = List.length (particles s) /\
    randomCalls s' = (randomCalls s + List.length (particles s))%nat /\
    List.length (drawn (animate Math_sin Math_random env time s))
    = (2 + List.length (backgroundParticles s)
       + List.length (particles s))%nat.
Proof.
  intros Ha s'. subst s'. unfold available in Ha. unfold animate.
  destruct (canvasRef env) as [canvas|]; [|discriminate].
  rewrite Ha. cbn [negb]. exists canvas.
  destruct (scrollRef env) as [el|];
    match goal with
    | |- context [collisionLoop Math_random ?c ?n ?i ?k ?ps] =>
        pose proof (@collisionLoop_drawn c n i k ps eq_refl) as E;
        pose proof (@collisionLoop_length c n i k ps eq_refl) as L;
        destruct (collisionLoop Math_random c n i k ps) as [ps' cmds];
        exists c
    end;
    cbn [fst snd] in E, L; rewrite length_map in L;
    cbn [next drawn particles backgroundParticles randomCalls];
    eexists; (split; [reflexivity|]);
    rewrite L; rewrite length_map in E; rewrite <- E;
    (split; [reflexivity|]); (split; [reflexivity|]);
    (split; [now rewrite length_map|]);
    cbn [List.length]; rewrite length_app, !length_map;
    assert (Lc : List.length cmds = List.length (particles s))
      by (rewrite E, length_map, length_combine, length_seq, L; lia);
    rewrite Lc; lia.
Qed.

(** *** Navigation *)

(** X18.  The Enter button of the hero section and the Links entry of the
    navigation bar ask for the same scroll of the container, although
    they test the container and the section in different orders; without
    the section or without the container neither scrolls.  The variant
    with the mobile layout behaves as the other one on a desktop, and on
    a mobile it never scrolls the container: it scrolls the section into
    view, when there is one. *)
Theorem navigation_scrolls (document : string -> option (Element num))
  (container : option (ScrollEl num)) :
  scrollToSection document container "links-section"
  = PreventDefault :: handleHeroEnterClick document container /\
  (forall id,
     scrollToSectionResponsive false document container id
     = scrollToSection document container id) /\
  (forall id,
     document id = None \/ container = None ->
     scrollToSection document container id = [PreventDefault]) /\
  (forall id el,
     document id = Some el -> container <> None ->
     scrollToSection document container id
     = [PreventDefault; ContainerScrollTo (offsetTop el)]) /\
  (forall id,
     scrollToSectionResponsive true document container id
     = PreventDefault ::
       match document id with
       | Some el => [ScrollIntoView el]
       | None => []
       end).
Proof.
  split; [|split; [|split; [|split]]].
  - unfold scrollToSection, handleHeroEnterClick.
    destruct (document "links-section"%string), container; reflexivity.
  - reflexivity.
  - intros id [E|E]; unfold scrollToSection; rewrite E;
      [reflexivity|destruct (document id); reflexivity].
  - intros id el E Hc. unfold scrollToSection. rewrite E.
    destruct container; [reflexivity|contradiction].
  - reflexivity.
Qed.

(** *** Resize *)

(** X3.  A resize that misses the container or the canvas changes nothing.
    One that finds both keeps the pointer, the scroll offset and the FPS
    bookkeeping, and replaces both populations: the new ones do not
    depend on the old ones, only on the size of the container and on the
    values [Math.random] returns from then on. *)
Theorem resize_repopulates (container : option (Rect num))
  (cv : option (Canvas num)) (dpr : num) (s : Sim num) :
  (container = None \/ cv = None ->
   handleResize Math_random container cv dpr s = (s, cv)) /\
  (forall r c, container = Some r -> cv = Some c ->
     let s' := fst (handleResize Math_random container cv dpr s) in
     (mouse s' = mouse s /\ lastScrollTop s' = lastScrollTop s /\
      frameCount s' = frameCount s /\ lastFpsTime s' = lastFpsTime s /\
      lastTime s' = lastTime s /\ frameId s' = frameId s) /\
     (forall s2 : Sim num, randomCalls s2 = randomCalls s ->
        let s2' := fst (handleResize Math_random container cv dpr s2) in
        particles s2' = particles s' /\
        backgroundParticles s2' = backgroundParticles s' /\
        entityCount s2' = entityCount s' /\
        randomCalls s2' = randomCalls s') /\
     randomCalls s'
     = (randomCalls s + 5 * List.length (particles s')
        + 7 * List.length (backgroundParticles s'))%nat).
Proof.
  split.
  - intros [E|E]; subst; [reflexivity|destruct container; reflexivity].
  - intros r c -> -> s'. subst s'. cbn [handleResize fst].
    split; [repeat split|]. split.
    + intros s2 E. cbv zeta. cbn [handleResize fst].
      unfold initParticles. rewrite E. repeat split.
    + unfold initParticles.
      cbn [randomCalls particles backgroundParticles].
      now rewrite newParticles_length, newBgParticles_length.
Qed.

End Populations.

(** ** The comparisons of binary64

    [PrimFloat.ltb] and [PrimFloat.leb] are specified by [SFcompare] on
    the value a double denotes; NaN compares with nothing. *)

Lemma SFcompare_antisym (f g : SpecFloat.spec_float) :
  SpecFloat.SFcompare g f = option_map CompOpp (SpecFloat.SFcompare f g).
Proof.
  destruct f as [s|s| |s m e], g as [s'|s'| |s' m' e']; simpl;
    try reflexivity; try (destruct s; reflexivity);
    try (destruct s'; reflexivity);
    try (destruct s, s'; reflexivity).
  f_equal. destruct s, s'; try reflexivity.
  - rewrite (Z.compare_antisym e e').
    destruct (e ?= e')%Z; simpl; try reflexivity.
    pose proof (Pos.compare_cont_antisym m m' Eq) as A. simpl in A.
    change (PosDef.Pos.compare_cont Eq m' m) with (Pos.compare_cont Eq m' m).
    now rewrite <- A.
  - rewrite (Z.compare_antisym e e').
    destruct (e ?= e')%Z; simpl; try reflexivity.
    pose proof (Pos.compare_cont_antisym m m' Eq) as A. simpl in A.
    change (PosDef.Pos.compare_cont Eq m' m) with (Pos.compare_cont Eq m' m).
    now rewrite <- A.
Qed.

Lemma SFcompare_total (f g : SpecFloat.spec_float) :
  f <> SpecFloat.S754_nan -> g <> SpecFloat.S754_nan ->
  exists c, SpecFloat.SFcompare f g = Some c.
Proof.
  destruct f, g; simpl; try congruence; intros _ _; eexists; reflexivity.
Qed.

Lemma Prim2SF_not_nan (a : float) :
  PrimFloat.is_nan a = false -> FloatOps.Prim2SF a <> SpecFloat.S754_nan.
Proof.
  intros Hn. unfold FloatOps.Prim2SF. rewrite Hn.
  destruct (PrimFloat.is_zero a); [discriminate|].
  destruct (PrimFloat.is_infinity a); [discriminate|].
  destruct (FloatOps.Z.frexp a) as [r e].
  destruct (SpecFloat.shr_fexp _ _ _ _ _) as [shr e'].
  destruct (SpecFloat.shr_m shr); discriminate.
Qed.

(** A finite double denotes a zero or a signed mantissa and an
    exponent. *)
Lemma Prim2SF_finite (a : float) :
  isFinite a = true ->
  (exists s, FloatOps.Prim2SF a = SpecFloat.S754_zero s) \/
  (exists s m e, FloatOps.Prim2SF a = SpecFloat.S754_finite s m e).
Proof.
  unfold isFinite. intros Hf. apply negb_true_iff, orb_false_iff in Hf.
  destruct Hf as [Hn Hi].
  unfold FloatOps.Prim2SF. rewrite Hn, Hi.
  destruct (PrimFloat.is_zero a); [left; eexists; reflexivity|].
  destruct (FloatOps.Z.frexp a) as [r e].
  destruct (SpecFloat.shr_fexp _ _ _ _ _) as [shr e'].
  destruct (SpecFloat.shr_m shr);
    [left|right|left]; repeat eexists; reflexivity.
Qed.

Lemma Prim2SF_is_zero (a : float) :
  PrimFloat.is_zero a = true ->
  exists s, FloatOps.Prim2SF a = SpecFloat.S754_zero s.
Proof.
  unfold PrimFloat.is_zero. rewrite FloatAxioms.eqb_spec.
  change (FloatOps.Prim2SF PrimFloat.zero) with (SpecFloat.S754_zero false).
  unfold SpecFloat.SFeqb.
  destruct (FloatOps.Prim2SF a) as [s|s| |s m e]; simpl;
    try discriminate; try (destruct s; discriminate).
  intros _. now exists s.
Qed.

Lemma float_ltb_irrefl (a : float) : PrimFloat.ltb a a = false.
Proof.
  rewrite FloatAxioms.ltb_spec. unfold SpecFloat.SFltb.
  destruct (FloatOps.Prim2SF a) as [s|s| |s m e] eqn:E; simpl; try reflexivity.
  - now destruct s.
  - rewrite Z.compare_refl.
    change (PosDef.Pos.compare_cont Eq m m) with (Pos.compare_cont Eq m m).
    rewrite Pos.compare_cont_refl. now destruct s.
Qed.

Lemma float_ltb_above (a b : float) :
  PrimFloat.leb (float_lit 0) b = true -> PrimFloat.ltb b a = true ->
  PrimFloat.ltb a (float_lit 0) = false.
Proof.
  rewrite FloatAxioms.leb_spec, !FloatAxioms.ltb_spec.
  change (FloatOps.Prim2SF (float_lit 0)) with (SpecFloat.S754_zero false).
  unfold SpecFloat.SFleb, SpecFloat.SFltb.
  destruct (FloatOps.Prim2SF a) as [s|s| |s m e],
           (FloatOps.Prim2SF b) as [s'|s'| |s' m' e']; simpl;
    try discriminate; try reflexivity;
    try (destruct s; try reflexivity; try discriminate);
    try (destruct s'; try reflexivity; try discriminate).
Qed.

Lemma float_ltb_leb (a b : float) :
  PrimFloat.ltb a b = true -> PrimFloat.leb a b = true.
Proof.
  rewrite FloatAxioms.ltb_spec, FloatAxioms.leb_spec.
  unfold SpecFloat.SFltb, SpecFloat.SFleb.
  destruct (SpecFloat.SFcompare _ _) as [[]|]; congruence.
Qed.

Lemma float_leb_total (a b : float) :
  PrimFloat.is_nan a = false -> PrimFloat.is_nan b = false ->
  PrimFloat.ltb b a = false -> PrimFloat.leb a b = true.
Proof.
  intros Ha Hb. apply Prim2SF_not_nan in Ha, Hb.
  rewrite FloatAxioms.ltb_spec, FloatAxioms.leb_spec.
  unfold SpecFloat.SFltb, SpecFloat.SFleb.
  rewrite (SFcompare_antisym (FloatOps.Prim2SF a) (FloatOps.Prim2SF b)).
  destruct (SFcompare_total Ha Hb) as [c ->]. simpl.
  destruct c; simpl; congruence.
Qed.

(** [Math.min(Math.max(q, 0), 2)] of a number [q] is a number between 0
    and 2. *)
Lemma float_clamp_range (q : float) :
  PrimFloat.is_nan q = false ->
  let p := float_min (float_max q (float_lit 0)) (float_lit 2) in
  PrimFloat.is_nan p = false /\
  PrimFloat.leb (float_lit 0) p = true /\ PrimFloat.leb p (float_lit 2) = true.
Proof.
  intros Hq.
  assert (H1 : PrimFloat.is_nan (float_max q (float_lit 0)) = false /\
               PrimFloat.leb (float_lit 0) (float_max q (float_lit 0)) = true).
  { unfold float_max. rewrite Hq.
    change (PrimFloat.is_nan (float_lit 0)) with false. cbn [orb].
    destruct (PrimFloat.ltb q (float_lit 0)) eqn:L1; [split; reflexivity|].
    assert (L : PrimFloat.leb (float_lit 0) q = true)
      by (apply float_leb_total; [reflexivity|exact Hq|exact L1]).
    destruct (PrimFloat.ltb (float_lit 0) q); [split; assumption|].
    destruct (PrimFloat.get_sign q); split; try assumption; reflexivity. }
  destruct H1 as [N1 L1].
  set (r := float_max q (float_lit 0)) in *.
  intros p. unfold p, float_min. rewrite N1.
  change (PrimFloat.is_nan (float_lit 2)) with false. cbn [orb].
  destruct (PrimFloat.ltb r (float_lit 2)) eqn:L2.
  - repeat split; try assumption. now apply float_ltb_leb.
  - destruct (PrimFloat.ltb (float_lit 2) r) eqn:L3; [repeat split|].
    assert (L : PrimFloat.leb r (float_lit 2) = true)
      by (apply float_leb_total; [exact N1|reflexivity|exact L3]).
    destruct (PrimFloat.get_sign r); repeat split; assumption.
Qed.

(** [Math.round] of the double [n * 2^e] is the integer nearest to it,
    the upper one at a half. *)
Lemma float_round_nearest (f : float) (n e : Z) :
  float_parts f = Some (n, e) ->
  ((0 <= e)%Z -> float_round f = (n * 2 ^ e)%Z) /\
  ((e < 0)%Z ->
   (2 * n - 2 ^ (- e) < 2 ^ (- e + 1) * float_round f <= 2 * n + 2 ^ (- e))%Z).
Proof.
  intros E. unfold float_round. rewrite E. split.
  - intros He. destruct (Z.leb_spec 0 e); [reflexivity|lia].
  - intros He. destruct (Z.leb_spec 0 e); [lia|].
    assert (Hk : (0 < 2 ^ (- e))%Z) by (apply Z.pow_pos_nonneg; lia).
    assert (E2 : (2 ^ (- e + 1) = 2 * 2 ^ (- e))%Z)
      by (rewrite Z.pow_add_r by lia; lia).
    rewrite E2.
    set (k := (2 ^ (- e))%Z) in *.
    pose proof (Z.mul_div_le (2 * n + k) (2 * k) ltac:(lia)).
    pose proof (Z.mul_succ_div_gt (2 * n + k) (2 * k) ltac:(lia)).
    lia.
Qed.

(** A product with a zero factor is a zero, whatever the rounding, and
    its floor is 0. *)
Lemma float_no_area (w h c : float) :
  isFinite w = true -> isFinite h = true ->
  PrimFloat.is_zero w || PrimFloat.is_zero h = true ->
  isFinite c = true ->
  float_floor (PrimFloat.mul (PrimFloat.mul w h) c) = 0%Z.
Proof.
  intros Hw Hh Hz Hc.
  assert (Z1 : exists s, FloatOps.Prim2SF (PrimFloat.mul w h)
                         = SpecFloat.S754_zero s).
  { rewrite FloatAxioms.mul_spec. unfold FloatAxioms.SF64mul.
    apply orb_true_iff in Hz. destruct Hz as [Hz|Hz];
      apply Prim2SF_is_zero in Hz; destruct Hz as [s ->].
    - destruct (Prim2SF_finite h Hh) as [[s' ->]|(s' & m & e & ->)];
        eexists; reflexivity.
    - destruct (Prim2SF_finite w Hw) as [[s' ->]|(s' & m & e & ->)];
        eexists; reflexivity. }
  destruct Z1 as [s Z1].
  assert (Z2 : exists s', FloatOps.Prim2SF (PrimFloat.mul (PrimFloat.mul w h) c)
                          = SpecFloat.S754_zero s').
  { rewrite FloatAxioms.mul_spec, Z1. unfold FloatAxioms.SF64mul.
    destruct (Prim2SF_finite c Hc) as [[s' ->]|(s' & m & e & ->)];
      eexists; reflexivity. }
  destruct Z2 as [s' Z2].
  unfold float_floor, float_parts. rewrite Z2. reflexivity.
Qed.

#[export] Instance R_JsOrder : JsOrder R.
Proof.
  split.
  - intros a. apply Rltb_false. lra.
  - intros a b. simpl. unfold Rleb, Rltb.
    destruct (Rle_dec 0 b), (Rlt_dec b a), (Rlt_dec a 0);
      try reflexivity; try discriminate; lra.
Qed.

#[export] Instance float_JsOrder : JsOrder float.
Proof.
  split.
  - exact float_ltb_irrefl.
  - exact float_ltb_above.
Qed.

(** ** Background wrap *)

Section BackgroundWrap.

Context {num : Type} `{JsOrder num}.
Variable Math_sin : num -> num.
Variable Math_random : nat -> num.

Local Open Scope js_scope.

(** The two tests on a coordinate [a], in the order of the source. *)
Lemma wrap_cases (a W : num) :
  let a' := if a <? lit 0 then W else a in
  let r := if a' >? W then lit 0 else a' in
  ((a <? lit 0) = true -> r = W) /\
  ((a <? lit 0) = false -> (a >? W) = true -> r = lit 0) /\
  ((a <? lit 0) = false -> (a >? W) = false -> r = a) /\
  ((lit 0 <=? W) = true -> (a >? W) = true -> r = lit 0).
Proof.
  intros a' r. subst r a'. repeat split.
  - intros ->. now rewrite ltb_irrefl.
  - intros -> ->. reflexivity.
  - intros -> ->. reflexivity.
  - intros L0 L1. rewrite (ltb_above _ _ L0 L1), L1. reflexivity.
Qed.

(** C8.  In a frame drawn on a canvas of [W] by [H], every background
    particle advances by its velocity, plus a tenth of the scroll force
    of the frame vertically, and wraps at the four edges: with [ax] and
    [ay] the coordinates it reaches, [ax < 0] puts it at [x = W],
    [ax > W] puts it at [x = 0], and otherwise [x = ax]; likewise
    [ay < 0] gives [y = H], [ay > H] gives [y = 0] and otherwise
    [y = ay].  The comparisons are those of the program, in whatever
    arithmetic it runs; on a canvas of non-negative size [ax > W] alone
    gives [x = 0], so a particle that reaches [W + eps] is put at 0 and
    one that reaches [- eps] at [W]. *)
Theorem background_wraps (env : FrameEnv num) (time : num) (s : Sim num)
  (canvas : Canvas num) (i : nat) (p : BackgroundParticle num) :
  canvasRef env = Some canvas -> has_context canvas = true ->
  nth_error (backgroundParticles s) i = Some p ->
  let W := canvas_width canvas in
  let H := canvas_height canvas in
  let ax := bg_x p + bg_vx p in
  let ay := bg_y p + (bg_vy p + scrollForceOf env s * decimal 1 1) in
  exists p',
    nth_error
      (backgroundParticles (next (animate Math_sin Math_random env time s))) i
    = Some p' /\
    ((ax <? lit 0) = true -> bg_x p' = W) /\
    ((ax <? lit 0) = false -> (ax >? W) = true -> bg_x p' = lit 0) /\
    ((ax <? lit 0) = false -> (ax >? W) = false -> bg_x p' = ax) /\
    ((lit 0 <=? W) = true -> (ax >? W) = true -> bg_x p' = lit 0) /\
    ((ay <? lit 0) = true -> bg_y p' = H) /\
    ((ay <? lit 0) = false -> (ay >? H) = true -> bg_y p' = lit 0) /\
    ((ay <? lit 0) = false -> (ay >? H) = false -> bg_y p' = ay) /\
    ((lit 0 <=? H) = true -> (ay >? H) = true -> bg_y p' = lit 0).
Proof.
  intros Ec Hc Hp W Hh ax ay.
  assert (Ha : available env = true) by (unfold available; now rewrite Ec).
  destruct (animate_next Math_sin Math_random env time s Ha)
    as (canvas' & rgb & Ec' & _ & Eb & _).
  rewrite Ec in Ec'. injection Ec' as <-.
  exists (moveBackground canvas (scrollForceOf env s) p). split.
  - rewrite Eb. now apply map_nth_error.
  - destruct (wrap_cases ax W) as (X1 & X2 & X3 & X4).
    destruct (wrap_cases ay Hh) as (Y1 & Y2 & Y3 & Y4).
    repeat split; assumption.
Qed.

End BackgroundWrap.

(** In binary64, on a canvas of 800 by 600: a particle at
    [x = 799.95] moving right by 0.1 is put at [x = 0], and one at
    [y = 0.05] moving up by 0.1 at [y = 600]. *)
Lemma background_wraps_witness :
  exists p',
    nth_error
      (backgroundParticles
         (next (animate (fun _ => lit 0) (fun _ => lit 0) plainEnv (lit 16)
                  (withBackground
                     [speck (decimal 79995 2) (decimal 5 2)
                            (decimal 1 1) (decimal (-1) 1)])))) 0
    = Some p' /\ bg_x p' = lit 0 /\ bg_y p' = lit 600.
Proof.
  destruct (@background_wraps float _ _ (fun _ => lit 0) (fun _ => lit 0)
              plainEnv (lit 16)
              (withBackground
                 [speck (decimal 79995 2) (decimal 5 2)
                        (decimal 1 1) (decimal (-1) 1)])
              _ 0%nat _ eq_refl eq_refl eq_refl)
    as (p' & E & _ & _ & _ & X & Y & _).
  exists p'. split; [exact E|]. split.
  - apply X; vm_compute; reflexivity.
  - apply Y; vm_compute; reflexivity.
Defined.

(** ** The collision pass *)

Section CollisionPass.

Context {num : Type} `{JsNumber num}.
Variable Math_sin : num -> num.
Variable Math_random : nat -> num.

Local Open Scope js_scope.

(** The inner loop on a pair, by its two tests. *)
Lemma collide_cases (p1 p2 : Particle num) :
  collide p1 p2 =
  if overlapTest p1 p2 then
    if centreDistance p1 p2 >? decimal 1 2 then
      let d := centreDistance p1 p2 in
      let overlap := size p1 + size p2 - d in
      let pushX := (x p2 - x p1) / d * overlap * decimal 5 1 in
      let pushY := (y p2 - y p1) / d * overlap * decimal 5 1 in
      (setPosition p1 (x p1 - pushX) (y p1 - pushY),
       setPosition p2 (x p2 + pushX) (y p2 + pushY))
    else (p1, p2)
  else (p1, p2).
Proof. reflexivity. Qed.

Lemma collide_clear (p1 p2 : Particle num) :
  overlapTest p1 p2 = false -> collide p1 p2 = (p1, p2).
Proof. intros E. now rewrite collide_cases, E. Qed.

Lemma unexamined_of_indices (i0 : nat) (ps : list (Particle num)) :
  (forall i j pi pj, (i < j)%nat -> Nat.even (i0 + i) = true ->
     nth_error ps i = Some pi -> nth_error ps j = Some pj ->
     overlapTest pi pj = false) ->
  unexamined i0 ps.
Proof.
  revert i0; induction ps as [|p1 rest IH]; intros i0 Hq; simpl; [exact I|].
  split.
  - intros He. apply Forall_forall. intros p2 Hin.
    destruct (In_nth_error _ _ Hin) as [j Hj].
    apply (Hq 0%nat (S j) p1 p2); try reflexivity; try assumption; try lia.
    now rewrite Nat.add_0_r.
  - apply IH. intros i j pi pj Hij He Hi Hj.
    apply (Hq (S i) (S j) pi pj); try assumption; try lia.
    now rewrite Nat.add_succ_r.
Qed.

Lemma collideWithRest_unexamined (p1 : Particle num)
  (rest : list (Particle num)) :
  Forall (fun p2 => overlapTest p1 p2 = false) rest ->
  collideWithRest p1 rest = (p1, rest).
Proof.
  induction 1 as [|p2 rest Hn _ IH]; simpl; [reflexivity|].
  now rewrite (collide_clear _ _ Hn), IH.
Qed.

(** When no examined pair passes the overlap test, the pass only damps
    and moves. *)
Lemma collisionLoop_unexamined (rgb : Z * Z * Z) (n i k : nat)
  (ps : list (Particle num)) :
  n = List.length ps -> unexamined i ps ->
  fst (collisionLoop Math_random rgb n i k ps) = map (@integrate num _) ps.
Proof.
  revert i k ps; induction n as [|n IH]; intros i k [|p1 rest] Hn Hq;
    simpl in Hn; try discriminate; try reflexivity.
  injection Hn as Hn. destruct Hq as [Hh Ht].
  cbn [collisionLoop].
  assert (E : (if Nat.even i then collideWithRest p1 rest else (p1, rest))
              = (p1, rest)).
  { destruct (Nat.even i); [|reflexivity].
    apply collideWithRest_unexamined, Hh; reflexivity. }
  rewrite E.
  specialize (IH (S i) (S k) rest Hn Ht).
  destruct (collisionLoop Math_random rgb n (S i) (S k) rest) as [ps' cmds].
  simpl in *. now rewrite IH.
Qed.

(** The iteration of an odd index examines no pair. *)
Lemma collisionLoop_skips (rgb : Z * Z * Z) (n i k : nat)
  (p1 : Particle num) (rest : list (Particle num)) :
  Nat.even i = false ->
  fst (collisionLoop Math_random rgb (S n) i k (p1 :: rest))
  = integrate p1 :: fst (collisionLoop Math_random rgb n (S i) (S k) rest).
Proof.
  intros Ho. cbn [collisionLoop]. rewrite Ho.
  destruct (collisionLoop Math_random rgb n (S i) (S k) rest); reflexivity.
Qed.

(** The iteration of an even index examines every later particle. *)
Lemma collisionLoop_examines (rgb : Z * Z * Z) (n i k : nat)
  (p1 : Particle num) (rest : list (Particle num)) :
  Nat.even i = true ->
  fst (collisionLoop Math_random rgb (S n) i k (p1 :: rest))
  = integrate (fst (collideWithRest p1 rest))
      :: fst (collisionLoop Math_random rgb n (S i) (S k)
                (snd (collideWithRest p1 rest))).
Proof.
  intros He. cbn [collisionLoop]. rewrite He.
  destruct (collideWithRest p1 rest) as [p1' rest']. cbn [fst snd].
  destruct (collisionLoop Math_random rgb n (S i) (S k) rest'); reflexivity.
Qed.

(** The inner loop examines the particles in order: the pair with [p2]
    is examined once [p1] has been through those before [p2]. *)
Lemma collideWithRest_in_order (p1 p2 : Particle num)
  (before after : list (Particle num)) :
  let p1j := fst (collideWithRest p1 before) in
  let q := collide p1j p2 in
  collideWithRest p1 (before ++ p2 :: after)
  = (fst (collideWithRest (fst q) after),
     snd (collideWithRest p1 before)
       ++ snd q :: snd (collideWithRest (fst q) after)).
Proof.
  revert p1; induction before as [|b before IH]; intros p1; simpl.
  - destruct (collide p1 p2) as [p1' p2']. cbn [fst snd].
    destruct (collideWithRest p1' after); reflexivity.
  - destruct (collide p1 b) as [p1' b'].
    specialize (IH p1'). cbv zeta in IH. rewrite IH.
    destruct (collideWithRest p1' before) as [p1'' before']; reflexivity.
Qed.

(** The pass over a field of two particles that pass both tests. *)
Lemma collisionLoop_pair (rgb : Z * Z * Z) (k : nat) (p1 p2 : Particle num) :
  overlapTest p1 p2 = true ->
  (centreDistance p1 p2 >? decimal 1 2) = true ->
  let d := centreDistance p1 p2 in
  let overlap := size p1 + size p2 - d in
  let pushX := (x p2 - x p1) / d * overlap * decimal 5 1 in
  let pushY := (y p2 - y p1) / d * overlap * decimal 5 1 in
  fst (collisionLoop Math_random rgb 2 0 k [p1; p2])
  = [integrate (setPosition p1 (x p1 - pushX) (y p1 - pushY));
     integrate (setPosition p2 (x p2 + pushX) (y p2 + pushY))].
Proof.
  intros Ho Hd d overlap pushX pushY.
  cbn [collisionLoop collideWithRest Nat.even].
  rewrite (collide_cases p1 p2), Ho, Hd. reflexivity.
Qed.

(** C2, as the code has it.  The collision pass of a frame runs over
    the particles as the forces left them, and examines a pair only
    through its lower index, and only when that index is even.
    - If no pair with an even lower index passes the overlap test, the
      pass pushes no particle: it only damps and moves each one,
      whatever pairs with an odd lower index overlap.
    - The iteration of an odd index examines no pair.
    - In the iteration of an even index, with [p1] the particle of that
      index and [before ++ p2 :: after] the particles after it, the pair
      with [p2] is examined once [p1] has been through [before]; if it
      then passes the overlap test, more than 0.01 apart, [p1] is moved
      against the normal and [p2] along it by
      [(dx / d) * (minDist - d) * 0.5] and [(dy / d) * (minDist - d) * 0.5],
      and the pass goes on from the moved particles.
    The tests and the products are those of the program, in whatever
    arithmetic it runs. *)
Theorem collision_pass_examined_pairs :
  (forall (env : FrameEnv num) (time : num) (s : Sim num),
     available env = true ->
     exists rgb,
       particles (next (animate Math_sin Math_random env time s))
       = fst (collisionLoop Math_random rgb (List.length (particles s)) 0
                (randomCalls s)
                (map (applyForces (mouse s) (scrollForceOf env s))
                     (particles s))))
  /\
  (forall (rgb : Z * Z * Z) (k : nat) (ps : list (Particle num)),
     (forall i j pi pj, (i < j)%nat -> Nat.even i = true ->
        nth_error ps i = Some pi -> nth_error ps j = Some pj ->
        overlapTest pi pj = false) ->
     fst (collisionLoop Math_random rgb (List.length ps) 0 k ps)
     = map (@integrate num _) ps)
  /\
  (forall (rgb : Z * Z * Z) (n i k : nat) (p1 : Particle num)
          (rest : list (Particle num)),
     Nat.even i = false ->
     fst (collisionLoop Math_random rgb (S n) i k (p1 :: rest))
     = integrate p1 :: fst (collisionLoop Math_random rgb n (S i) (S k) rest))
  /\
  (forall (rgb : Z * Z * Z) (n i k : nat) (p1 p2 : Particle num)
          (before after : list (Particle num)),
     Nat.even i = true ->
     let p1j := fst (collideWithRest p1 before) in
     overlapTest p1j p2 = true ->
     (centreDistance p1j p2 >? decimal 1 2) = true ->
     let d := centreDistance p1j p2 in
     let overlap := size p1j + size p2 - d in
     let pushX := (x p2 - x p1j) / d * overlap * decimal 5 1 in
     let pushY := (y p2 - y p1j) / d * overlap * decimal 5 1 in
     let q1 := setPosition p1j (x p1j - pushX) (y p1j - pushY) in
     let q2 := setPosition p2 (x p2 + pushX) (y p2 + pushY) in
     fst (collisionLoop Math_random rgb (S n) i k
            (p1 :: before ++ p2 :: after))
     = integrate (fst (collideWithRest q1 after))
         :: fst (collisionLoop Math_random rgb n (S i) (S k)
                   (snd (collideWithRest p1 before)
                      ++ q2 :: snd (collideWithRest q1 after)))).
Proof.
  split; [|split; [|split]].
  - intros env time s Ha.
    destruct (animate_next Math_sin Math_random env time s Ha)
      as (canvas & rgb & _ & Ep & _).
    exists rgb. exact Ep.
  - intros rgb k ps Hq.
    apply collisionLoop_unexamined; [reflexivity|].
    apply unexamined_of_indices. intros i j pi pj Hij He.
    apply Hq; assumption.
  - intros rgb n i k p1 rest. apply collisionLoop_skips.
  - intros rgb n i k p1 p2 before after He p1j Ho Hd d overlap pushX pushY
      q1 q2.
    rewrite collisionLoop_examines by exact He.
    rewrite collideWithRest_in_order.
    fold p1j. rewrite (collide_cases p1j p2), Ho, Hd. reflexivity.
Qed.

End CollisionPass.

(** In binary64: in a row of three particles of radius 1 at
    [x = 0, 10, 11], the pair of indices 1 and 2 overlaps and the pass
    only damps and moves; in a field of two at [x = 0, 1] the pass moves
    the first to [x = -0.5] and the second to [x = 1.5]. *)
Lemma collision_pass_examined_pairs_witness :
  (fst (collisionLoop (fun _ => lit 0) (66, 133, 244)%Z 3 0 0
          [atRest (lit 0) (lit 0); atRest (lit 10) (lit 0);
           atRest (lit 11) (lit 0)])
   = map (@integrate float _)
         [atRest (lit 0) (lit 0); atRest (lit 10) (lit 0);
          atRest (lit 11) (lit 0)]
   /\ overlapTest (atRest (lit 10) (lit 0)) (atRest (lit 11) (lit 0)) = true)
  /\
  map (@x float)
      (fst (collisionLoop (fun _ => lit 0) (66, 133, 244)%Z 2 0 0
              (atRest (lit 0) (lit 0) :: [] ++ atRest (lit 1) (lit 0) :: [])))
  = [decimal (-5) 1; decimal 15 1].
Proof.
  split; [split; [|vm_compute; reflexivity]|].
  - apply (proj1 (proj2 (@collision_pass_examined_pairs float _
                           (fun _ => lit 0) (fun _ => lit 0)))
             (66, 133, 244)%Z 0%nat
             [atRest (lit 0) (lit 0); atRest (lit 10) (lit 0);
              atRest (lit 11) (lit 0)]).
    intros i j pi pj Hij He Hi Hj.
    destruct i as [|[|[|i]]]; try discriminate He;
      destruct j as [|[|[|j]]]; try lia; cbn [nth_error] in Hi, Hj;
      try (destruct i; discriminate); try (destruct j; discriminate);
      injection Hi as <-; injection Hj as <-; vm_compute; reflexivity.
  - assert (Ho : overlapTest
                   (fst (collideWithRest (atRest (lit 0) (lit 0)) []))
                   (atRest (lit 1) (lit 0)) = true)
      by (vm_compute; reflexivity).
    assert (Hd : (centreDistance
                    (fst (collideWithRest (atRest (lit 0) (lit 0)) []))
                    (atRest (lit 1) (lit 0)) >? decimal 1 2)%js = true)
      by (vm_compute; reflexivity).
    rewrite (proj2 (proj2 (proj2 (@collision_pass_examined_pairs float _
                                    (fun _ => lit 0) (fun _ => lit 0))))
               (66, 133, 244)%Z 1%nat 0%nat 0%nat
               (atRest (lit 0) (lit 0)) (atRest (lit 1) (lit 0)) [] []
               eq_refl Ho Hd).
    vm_compute. reflexivity.
Defined.

(** ** Counts and colors as the program computes them *)

Section Frames.

Context {num : Type} `{JsNumber num}.
Variable Math_sin : num -> num.
Variable Math_random : nat -> num.

Local Open Scope js_scope.

Lemma initParticles_lengths (width height : num) (s : Sim num) :
  let fg := Math_floor (width * height * PARTICLE_DENSITY) in
  let bg := Math_floor (width * height * BG_PARTICLE_DENSITY) in
  let s' := initParticles Math_random width height s in
  List.length (particles s') = Z.to_nat fg /\
  List.length (backgroundParticles s') = Z.to_nat bg /\
  entityCount s' = (fg + bg)%Z.
Proof.
  intros fg bg s'. subst s'. unfold initParticles.
  cbn [particles backgroundParticles entityCount].
  rewrite newParticles_length, newBgParticles_length. repeat split.
Qed.

(** The color of the gradient that a frame fills the canvas with. *)
Lemma animate_gradient (env : FrameEnv num) (time : num) (s : Sim num) :
  available env = true ->
  exists cx cy r a w h,
    nth_error (drawn (animate Math_sin Math_random env time s)) 1
    = Some (FillRect (RadialGradient cx cy r
                        (currentColor (scrollProgressOf env)) a) w h).
Proof.
  intros Ha. unfold available in Ha. unfold animate, scrollProgressOf.
  destruct (canvasRef env) as [canvas|]; [|discriminate].
  rewrite Ha. cbn [negb].
  destruct (scrollRef env) as [el|];
    destruct (collisionLoop _ _ _ _ _ _) as [ps' cmds];
    cbn [drawn nth_error]; do 6 eexists; reflexivity.
Qed.



End Frames.

(** C1, as the code has it.  Every initialisation -- [handleResize] runs
    [initParticles] on mount and on every resize event -- with a
    container of [width] by [height] creates
    [floor (width * height * 0.00015)] foreground particles and
    [floor (width * height * 0.00005)] background particles and reports
    the sum of the two floors as the entity count, where the products
    are the ones the program computes, each multiplication rounded in
    binary64 ([Math_floor] returns an integer: the sides are finite
    numbers).  In binary64 a container of 1000 by 1000 gives 150 and 50
    particles and a count of 200, and a container of zero width or
    height, the other side finite, gives no particle and a count of 0. *)
Theorem initialisation_counts_computed :
  (forall (num : Type) (N : JsNumber num) (Math_random : nat -> num)
          (container : Rect num) (cv : Canvas num) (dpr : num) (s : Sim num),
     let width := rect_width container in
     let height := rect_height container in
     let fg := Math_floor (width * height * PARTICLE_DENSITY)%js in
     let bg := Math_floor (width * height * BG_PARTICLE_DENSITY)%js in
     let s' :=
       fst (handleResize Math_random (Some container) (Some cv) dpr s) in
     s' = initParticles Math_random width height s /\
     List.length (particles s') = Z.to_nat fg /\
     List.length (backgroundParticles s') = Z.to_nat bg /\
     entityCount s' = (fg + bg)%Z)
  /\
  (forall (Math_random : nat -> float) (s : Sim float),
     let s' := initParticles Math_random (lit 1000) (lit 1000) s in
     List.length (particles s') = 150%nat /\
     List.length (backgroundParticles s') = 50%nat /\
     entityCount s' = 200%Z)
  /\
  (forall (Math_random : nat -> float) (width height : float) (s : Sim float),
     isFinite width = true -> isFinite height = true ->
     PrimFloat.is_zero width || PrimFloat.is_zero height = true ->
     let s' := initParticles Math_random width height s in
     particles s' = [] /\ backgroundParticles s' = [] /\
     entityCount s' = 0%Z).
Proof.
  split; [|split].
  - intros num N Math_random container cv dpr s width height fg bg s'.
    split; [reflexivity|].
    apply (initParticles_lengths Math_random width height s).
  - exact binary64_counts.
  - intros Math_random width height s Hw Hh Hz s'.
    assert (E1 : Math_floor (width * height * PARTICLE_DENSITY)%js = 0%Z)
      by (apply float_no_area; try assumption; reflexivity).
    assert (E2 : Math_floor (width * height * BG_PARTICLE_DENSITY)%js = 0%Z)
      by (apply float_no_area; try assumption; reflexivity).
    subst s'. unfold initParticles. rewrite E1, E2. repeat split.
Qed.

(** A container of 0 by 900, in binary64. *)
Lemma initialisation_counts_computed_witness :
  particles (initParticles (fun _ => lit 0) (lit 0) (lit 900)
               (withBackground [])) = [] /\
  backgroundParticles (initParticles (fun _ => lit 0) (lit 0) (lit 900)
                         (withBackground [])) = [] /\
  entityCount (initParticles (fun _ => lit 0) (lit 0) (lit 900)
                 (withBackground [])) = 0%Z.
Proof.
  apply (proj2 (proj2 initialisation_counts_computed)); reflexivity.
Defined.

(** C1 fails on the code.  For a container of 1600 by 900 the program
    creates 215 foreground particles, and
    [floor (1600 * 900 * 0.00015)] is 216: the product it computes is
    just below 216. *)
Lemma count_below_floor :
  List.length
    (particles (initParticles (fun _ => lit 0) (lit 1600) (lit 900)
                  (withBackground []))) = 215%nat /\
  Zfloor (1600 * 900 * (15 / 100000)) = 216%Z.
Proof.
  split.
  - unfold initParticles. cbn [particles]. rewrite newParticles_length.
    vm_compute. reflexivity.
  - apply Zfloor_eq. simpl. lra.
Qed.

(** C3.  In binary64.  The gradient color is a three-stop interpolation
    of the scroll progress: it is exactly (66,133,244) at 0,
    (147,51,234) at 1 and (34,211,238) at 2; for a progress in
    [[0, 2]] it goes from stop 0 to stop 1 by the progress when the
    progress is at most 1, and from stop 1 to stop 2 by the progress
    minus 1 otherwise, each channel on its own and rounded by
    [Math.round], which gives the nearest integer, the upper one at a
    half.  In a frame, the progress is the quotient of the scroll offset
    by the height of the window, clamped: when the quotient is a number
    the progress lies in [[0, 2]], and its color is the one the frame
    fills the canvas gradient with; without scroll container the color
    is stop 0. *)
Theorem currentColor_interpolates :
  (currentColor (lit 0 : float) = (66, 133, 244)%Z /\
   currentColor (lit 1 : float) = (147, 51, 234)%Z /\
   currentColor (lit 2 : float) = (34, 211, 238)%Z)
  /\
  (forall progress : float,
     (lit 0 <=? progress)%js = true -> (progress <=? lit 2)%js = true ->
     currentColor progress =
     if (progress <=? lit 1)%js then
       (Math_round (lit 66 + (lit 147 - lit 66) * progress)%js,
        Math_round (lit 133 + (lit 51 - lit 133) * progress)%js,
        Math_round (lit 244 + (lit 234 - lit 244) * progress)%js)
     else
       (Math_round (lit 147 + (lit 34 - lit 147) * (progress - lit 1))%js,
        Math_round (lit 51 + (lit 211 - lit 51) * (progress - lit 1))%js,
        Math_round (lit 234 + (lit 238 - lit 234) * (progress - lit 1))%js))
  /\
  (forall (f : float) (n e : Z),
     float_parts f = Some (n, e) ->
     ((0 <= e)%Z -> Math_round f = (n * 2 ^ e)%Z) /\
     ((e < 0)%Z ->
      (2 * n - 2 ^ (- e) < 2 ^ (- e + 1) * Math_round f
       <= 2 * n + 2 ^ (- e))%Z))
  /\
  (forall (Math_sin : float -> float) (Math_random : nat -> float)
          (env : FrameEnv float) (time : float) (s : Sim float),
     available env = true ->
     match scrollRef env with
     | None =>
         exists cx cy r a w h,
           nth_error (drawn (animate Math_sin Math_random env time s)) 1
           = Some (FillRect (RadialGradient cx cy r (66, 133, 244)%Z a) w h)
     | Some el =>
         PrimFloat.is_nan (scrollTop el / innerHeight env)%js = false ->
         let progress :=
           Math_min (Math_max (scrollTop el / innerHeight env)%js (lit 0))
                    (lit 2) in
         (lit 0 <=? progress)%js = true /\ (progress <=? lit 2)%js = true /\
         exists cx cy r a w h,
           nth_error (drawn (animate Math_sin Math_random env time s)) 1
           = Some (FillRect (RadialGradient cx cy r (currentColor progress) a)
                     w h)
     end).
Proof.
  split; [exact binary64_stops|]. split; [|split].
  - intros progress _ _. reflexivity.
  - exact float_round_nearest.
  - intros Math_sin Math_random env time s Ha.
    pose proof (animate_gradient Math_sin Math_random env time s Ha) as G.
    unfold scrollProgressOf in G.
    destruct (scrollRef env) as [el|].
    + intros Hq progress.
      destruct (float_clamp_range _ Hq) as (_ & L0 & L2).
      split; [exact L0|]. split; [exact L2|exact G].
    + exact G.
Qed.

(** A frame at scroll offset 480 in a window of height 960: the progress
    is 0.5 and the gradient has the color (107, 92, 239). *)
Lemma currentColor_interpolates_witness :
  exists cx cy r a w h,
    nth_error
      (drawn (animate (fun _ => lit 0) (fun _ => lit 0)
                (scrolledEnv (lit 480) (lit 960)) (lit 16)
                (withBackground []))) 1
    = Some (FillRect (RadialGradient cx cy r (107, 92, 239)%Z a) w h).
Proof.
  pose proof (proj2 (proj2 (proj2 currentColor_interpolates))
                (fun _ => lit 0) (fun _ => lit 0)
                (scrolledEnv (lit 480) (lit 960)) (lit 16)
                (withBackground []) eq_refl) as G.
  cbn [scrollRef scrolledEnv] in G.
  destruct (G eq_refl) as (_ & _ & G').
  exact G'.
Defined.

(** ** Damping *)

Section ExactDamping.

Local Open Scope R_scope.

Variable Math_sin : R -> R.
Variable Math_random : nat -> R.





End ExactDamping.




(** ** The push of a pair *)

(** C4, as the code has it.  Two particles that pass the overlap test,
    more than 0.01 apart.
    - In any arithmetic, the pass over the two moves the first by
      [- push] and the second by [+ push], with
      [push = ((dx / d) * (minDist - d) * 0.5, (dy / d) * (minDist - d) * 0.5)],
      [d] the distance of the centres and [minDist] the sum of the
      radii, and then damps and moves each; so does the frame of a
      field of the two, on the particles as the forces left them.
    - In exact arithmetic, for two particles of radius [r] at distance
      [d] with [0.01 < d < 2r], the push is [(2r - d) / 2] times the
      unit normal: each particle is displaced by half the overlap along
      the collision normal, the first against it and the second along
      it, with its velocity as it was. *)
Theorem collision_pass_pushes_pair :
  (forall (num : Type) (N : JsNumber num) (Math_random : nat -> num)
          (rgb : Z * Z * Z) (k : nat) (p1 p2 : Particle num),
     overlapTest p1 p2 = true ->
     (centreDistance p1 p2 >? decimal 1 2)%js = true ->
     let d := centreDistance p1 p2 in
     let overlap := (size p1 + size p2 - d)%js in
     let pushX := ((x p2 - x p1) / d * overlap * decimal 5 1)%js in
     let pushY := ((y p2 - y p1) / d * overlap * decimal 5 1)%js in
     fst (collisionLoop Math_random rgb 2 0 k [p1; p2])
     = [integrate (setPosition p1 (x p1 - pushX)%js (y p1 - pushY)%js);
        integrate (setPosition p2 (x p2 + pushX)%js (y p2 + pushY)%js)])
  /\
  (forall (num : Type) (N : JsNumber num) (Math_sin : num -> num)
          (Math_random : nat -> num) (env : FrameEnv num) (time : num)
          (s : Sim num) (p1 p2 : Particle num),
     available env = true -> particles s = [p1; p2] ->
     let f1 := applyForces (mouse s) (scrollForceOf env s) p1 in
     let f2 := applyForces (mouse s) (scrollForceOf env s) p2 in
     overlapTest f1 f2 = true ->
     (centreDistance f1 f2 >? decimal 1 2)%js = true ->
     let d := centreDistance f1 f2 in
     let overlap := (size f1 + size f2 - d)%js in
     let pushX := ((x f2 - x f1) / d * overlap * decimal 5 1)%js in
     let pushY := ((y f2 - y f1) / d * overlap * decimal 5 1)%js in
     particles (next (animate Math_sin Math_random env time s))
     = [integrate (setPosition f1 (x f1 - pushX)%js (y f1 - pushY)%js);
        integrate (setPosition f2 (x f2 + pushX)%js (y f2 + pushY)%js)])
  /\
  (forall (Math_random : nat -> R) (rgb : Z * Z * Z) (k : nat)
          (p1 p2 : Particle R) (r d : R),
     size p1 = r -> size p2 = r -> distance p1 p2 = d ->
     (1 / 100 < d)%R -> (d < 2 * r)%R ->
     let nx := ((x p2 - x p1) / d)%R in
     let ny := ((y p2 - y p1) / d)%R in
     exists q1 q2 : Particle R,
       fst (collisionLoop Math_random rgb 2 0 k [p1; p2])
       = [integrate q1; integrate q2] /\
       (nx * nx + ny * ny = 1)%R /\
       (x q1 = x p1 - nx * ((2 * r - d) / 2))%R /\
       (y q1 = y p1 - ny * ((2 * r - d) / 2))%R /\
       (x q2 = x p2 + nx * ((2 * r - d) / 2))%R /\
       (y q2 = y p2 + ny * ((2 * r - d) / 2))%R /\
       velocity q1 = velocity p1 /\ velocity q2 = velocity p2).
Proof.
  split; [|split].
  - intros num N Math_random rgb k p1 p2. apply collisionLoop_pair.
  - intros num N Math_sin Math_random env time s p1 p2 Ha Hp f1 f2 Ho Hd
      d overlap pushX pushY.
    destruct (animate_next Math_sin Math_random env time s Ha)
      as (canvas & rgb & _ & Ep & _).
    rewrite Ep, Hp. cbn [map List.length].
    apply (collisionLoop_pair Math_random rgb (randomCalls s) f1 f2 Ho Hd).
  - intros Math_random rgb k p1 p2 r d Hr1 Hr2 Hd Hlo Hhi nx ny.
    exists (fst (collide p1 p2)), (snd (collide p1 p2)).
    split.
    { cbn [collisionLoop collideWithRest Nat.even].
      destruct (collide p1 p2) as [q1 q2]. reflexivity. }
    assert (Ho : overlapping p1 p2).
    { unfold overlapping. rewrite <- distance_sqr, Hd, Hr1, Hr2. nra. }
    assert (Hd' : (1 / 100 < distance p1 p2)%R) by (rewrite Hd; exact Hlo).
    assert (Hs : (0 <= size p1 + size p2)%R) by (rewrite Hr1, Hr2; lra).
    destruct (collide_overlapping Hs Ho Hd') as (_ & Hn & X1 & Y1 & X2 & Y2).
    rewrite Hd, Hr1, Hr2 in *.
    fold nx in Hn, X1, X2. fold ny in Hn, Y1, Y2.
    replace (r + r - d)%R with (2 * r - d)%R in * by ring.
    destruct (@collide_factor R _ _ (@velocity R) (fun _ _ _ => eq_refl)
                p1 p2) as [V1 V2].
    repeat split; assumption.
Qed.

(** Two particles of radius 1 at [(0, 0)] and [(1, 0)]: the pass moves
    them to [x = -1/2] and [x = 3/2], in exact arithmetic and in
    binary64. *)
Lemma collision_pass_pushes_pair_witness :
  (exists q1 q2 : Particle R,
     fst (collisionLoop noRandom (66, 133, 244)%Z 2 0 0
            [moving 0 0 0; moving 1 0 0])
     = [integrate q1; integrate q2] /\
     (x q1 = - (1 / 2) /\ x q2 = 3 / 2)%R)
  /\
  map (@x float)
      (fst (collisionLoop (fun _ => lit 0) (66, 133, 244)%Z 2 0 0
              [atRest (lit 0) (lit 0); atRest (lit 1) (lit 0)]))
  = [decimal (-5) 1; decimal 15 1].
Proof.
  split.
  - destruct (proj2 (proj2 collision_pass_pushes_pair) noRandom
                (66, 133, 244)%Z 0%nat
                (moving 0 0 0) (moving 1 0 0) 1%R 1%R
                eq_refl eq_refl distance_unit ltac:(lra) ltac:(lra))
      as (q1 & q2 & E & _ & X1 & _ & X2 & _).
    exists q1, q2. split; [exact E|].
    rewrite X1, X2. simpl. split; lra.
  - assert (Ho : overlapTest (atRest (lit 0) (lit 0))
                   (atRest (lit 1) (lit 0)) = true)
      by (vm_compute; reflexivity).
    assert (Hd : (centreDistance (atRest (lit 0) (lit 0))
                    (atRest (lit 1) (lit 0)) >? decimal 1 2)%js = true)
      by (vm_compute; reflexivity).
    rewrite (proj1 collision_pass_pushes_pair float _ (fun _ => lit 0)
               (66, 133, 244)%Z 0%nat
               (atRest (lit 0) (lit 0)) (atRest (lit 1) (lit 0)) Ho Hd).
    vm_compute. reflexivity.
Defined.

(** C4 fails on the code.  Two particles of radius 1 at [(0, 0)] and
    [(0.1, 1/7)], at rest: they pass the overlap test, more than 0.01
    apart, and the pass pushes them; the distance the program computes
    between them afterwards is below 2, and they still pass the overlap
    test. *)
Lemma pair_left_overlapping :
  overlapTest (atRest (lit 0) (lit 0))
              (atRest (decimal 1 1) (lit 1 / lit 7)%js) = true /\
  (centreDistance (atRest (lit 0) (lit 0))
                  (atRest (decimal 1 1) (lit 1 / lit 7)%js)
   >? decimal 1 2)%js = true /\
  exists q1 q2 : Particle float,
    fst (collisionLoop (fun _ => lit 0) (66, 133, 244)%Z 2 0 0
           [atRest (lit 0) (lit 0); atRest (decimal 1 1) (lit 1 / lit 7)%js])
    = [q1; q2] /\
    size q1 = lit 1 /\ size q2 = lit 1 /\
    (centreDistance q1 q2 <? lit 2)%js = true /\
    overlapTest q1 q2 = true.
Proof.
  split; [vm_compute; reflexivity|]. split; [vm_compute; reflexivity|].
  eexists. eexists. split; [vm_compute; reflexivity|].
  repeat split; vm_compute; reflexivity.
Qed.

(** ** Further properties, in exact arithmetic *)

Section ExactFurther.

Local Open Scope R_scope.

Variable Math_sin : R -> R.
Variable Math_random : nat -> R.

(** *** The populations after an initialisation *)

Lemma newParticles_Forall (P : Particle R -> Prop) (count k : nat)
  (width height : R) :
  (forall j, P (newParticle Math_random j width height)) ->
  Forall P (newParticles Math_random count k width height).
Proof.
  intros HP. revert k; induction count as [|c IH]; intros k; simpl;
    constructor; [apply HP|apply IH].
Qed.

Lemma newBgParticles_Forall (P : BackgroundParticle R -> Prop) (count k : nat)
  (width height : R) :
  (forall j, P (newBgParticle Math_random j width height)) ->
  Forall P (newBgParticles Math_random count k width height).
Proof.
  intros HP. revert k; induction count as [|c IH]; intros k; simpl;
    constructor; [apply HP|apply IH].
Qed.

Lemma no_area_no_particle (width height : R) (s : Sim R) :
  width * height = 0 ->
  particles (initParticles Math_random width height s) = [] /\
  backgroundParticles (initParticles Math_random width height s) = [].
Proof.
  intros E.
  assert (E1 : Zfloor (width * height * (15 / 100000)) = 0%Z)
    by (rewrite E; apply Zfloor_eq; simpl; lra).
  assert (E2 : Zfloor (width * height * (5 / 100000)) = 0%Z)
    by (rewrite E; apply Zfloor_eq; simpl; lra).
  unfold initParticles.
  change (@mul R R_JsNumber) with Rmult.
  change (@Math_floor R R_JsNumber) with Zfloor.
  rewrite PARTICLE_DENSITY_R, BG_PARTICLE_DENSITY_R, E1, E2.
  split; reflexivity.
Qed.

(** X1.  When [Math.random] returns values in [[0, 1)], every foreground
    particle that an initialisation creates lies within the container,
    edges included, on its origin and at rest, with a radius between 1
    and 2.5, one of the two colors and an angle between 0 and [2 pi]. *)
Theorem initParticles_foreground (width height : R) (s : Sim R) :
  (forall k, 0 <= Math_random k < 1) ->
  0 <= width -> 0 <= height ->
  Forall (fun p =>
            (0 <= x p <= width /\ 0 <= y p <= height) /\
            (originX p = x p /\ originY p = y p) /\
            (vx p = 0 /\ vy p = 0) /\
            1 <= size p <= 5 / 2 /\
            (color p = "#4285F4"%string \/ color p = "#ffffff"%string) /\
            0 <= angle p <= 2 * PI)
         (particles (initParticles Math_random width height s)).
Proof.
  intros Hr Hw Hh.
  destruct (Req_dec_T (width * height) 0) as [E|E].
  - rewrite (proj1 (no_area_no_particle s E)). constructor.
  - assert (Hw' : 0 < width) by nra. assert (Hh' : 0 < height) by nra.
    unfold initParticles. cbn [particles].
    apply newParticles_Forall. intros j.
    pose proof (Hr j) as R0. pose proof (Hr (j + 1)%nat) as R1.
    pose proof (Hr (j + 2)%nat) as R2. pose proof (Hr (j + 4)%nat) as R4.
    pose proof PI_RGT_0 as Hpi.
    set (r0 := Math_random j) in *. set (r1 := Math_random (j + 1)%nat) in *.
    set (r2 := Math_random (j + 2)%nat) in *.
    set (r4 := Math_random (j + 4)%nat) in *.
    assert (Ex : x (newParticle Math_random j width height) = r0 * width)
      by reflexivity.
    assert (Ey : y (newParticle Math_random j width height) = r1 * height)
      by reflexivity.
    assert (Es : size (newParticle Math_random j width height)
                 = r2 * (25 / 10 - 1) + 1) by reflexivity.
    assert (Ea : angle (newParticle Math_random j width height)
                 = r4 * PI * 2) by reflexivity.
    rewrite Ex, Ey, Es, Ea.
    repeat split; try reflexivity; try nra.
    unfold newParticle; cbn [color].
    destruct (_ >? _)%js; [left|right]; reflexivity.
Qed.

(** X2.  Under the same condition every background particle lies within
    the container, edges included, with velocity components between
    -0.1 and 0.1, a radius between 0.5 and 1.5, an alpha between 0.1 and
    0.4 and a phase between 0 and [2 pi]. *)
Theorem initParticles_background (width height : R) (s : Sim R) :
  (forall k, 0 <= Math_random k < 1) ->
  0 <= width -> 0 <= height ->
  Forall (fun p =>
            (0 <= bg_x p <= width /\ 0 <= bg_y p <= height) /\
            (- (1 / 10) <= bg_vx p <= 1 / 10 /\
             - (1 / 10) <= bg_vy p <= 1 / 10) /\
            1 / 2 <= bg_size p <= 3 / 2 /\
            1 / 10 <= bg_alpha p <= 4 / 10 /\
            0 <= bg_phase p <= 2 * PI)
         (backgroundParticles (initParticles Math_random width height s)).
Proof.
  intros Hr Hw Hh.
  destruct (Req_dec_T (width * height) 0) as [E|E].
  - rewrite (proj2 (no_area_no_particle s E)). constructor.
  - assert (Hw' : 0 < width) by nra. assert (Hh' : 0 < height) by nra.
    unfold initParticles. cbn [backgroundParticles].
    apply newBgParticles_Forall. intros j.
    pose proof (Hr j) as R0. pose proof (Hr (j + 1)%nat) as R1.
    pose proof (Hr (j + 2)%nat) as R2. pose proof (Hr (j + 3)%nat) as R3.
    pose proof (Hr (j + 4)%nat) as R4. pose proof (Hr (j + 5)%nat) as R5.
    pose proof (Hr (j + 6)%nat) as R6.
    pose proof PI_RGT_0 as Hpi.
    set (r0 := Math_random j) in *. set (r1 := Math_random (j + 1)%nat) in *.
    set (r2 := Math_random (j + 2)%nat) in *.
    set (r3 := Math_random (j + 3)%nat) in *.
    set (r4 := Math_random (j + 4)%nat) in *.
    set (r5 := Math_random (j + 5)%nat) in *.
    set (r6 := Math_random (j + 6)%nat) in *.
    assert (Ex : bg_x (newBgParticle Math_random j width height) = r0 * width)
      by reflexivity.
    assert (Ey : bg_y (newBgParticle Math_random j width height)
                 = r1 * height) by reflexivity.
    assert (Evx : bg_vx (newBgParticle Math_random j width height)
                  = (r2 - 5 / 10) * (2 / 10)) by reflexivity.
    assert (Evy : bg_vy (newBgParticle Math_random j width height)
                  = (r3 - 5 / 10) * (2 / 10)) by reflexivity.
    assert (Es : bg_size (newBgParticle Math_random j width height)
                 = r4 * (15 / 10 - 5 / 10) + 5 / 10) by reflexivity.
    assert (Ea : bg_alpha (newBgParticle Math_random j width height)
                 = r5 * (4 / 10 - 1 / 10) + 1 / 10) by reflexivity.
    assert (Ep : bg_phase (newBgParticle Math_random j width height)
                 = r6 * PI * 2) by reflexivity.
    rewrite Ex, Ey, Evx, Evy, Es, Ea, Ep.
    repeat split; nra.
Qed.

(** *** Background particles stay on the canvas *)

Lemma moveBackground_within (canvas : Canvas R) (force : R)
  (p : BackgroundParticle R) :
  0 <= canvas_width canvas -> 0 <= canvas_height canvas ->
  0 <= bg_x (moveBackground canvas force p) <= canvas_width canvas /\
  0 <= bg_y (moveBackground canvas force p) <= canvas_height canvas.
Proof.
  intros Hw Hh.
  set (ax := bg_x p + bg_vx p).
  set (ay := bg_y p + (bg_vy p + force * (1 / 10))).
  assert (Ex : bg_x (moveBackground canvas force p) =
    if Rltb (canvas_width canvas)
            (if Rltb ax 0 then canvas_width canvas else ax)
    then 0 else (if Rltb ax 0 then canvas_width canvas else ax))
    by reflexivity.
  assert (Ey : bg_y (moveBackground canvas force p) =
    if Rltb (canvas_height canvas)
            (if Rltb ay 0 then canvas_height canvas else ay)
    then 0 else (if Rltb ay 0 then canvas_height canvas else ay))
    by reflexivity.
  rewrite Ex, Ey. unfold Rltb.
  split.
  - destruct (Rlt_dec ax 0);
      destruct (Rlt_dec (canvas_width canvas) _); lra.
  - destruct (Rlt_dec ay 0);
      destruct (Rlt_dec (canvas_height canvas) _); lra.
Qed.

(** X12.  After a frame drawn on a canvas of non-negative size, every background
    particle lies within the canvas, edges included, wherever it was
    before the frame and whatever its velocity and the scroll. *)
Theorem background_within_canvas (env : FrameEnv R) (time : R) (s : Sim R)
  (canvas : Canvas R) :
  canvasRef env = Some canvas -> has_context canvas = true ->
  0 <= canvas_width canvas -> 0 <= canvas_height canvas ->
  Forall (fun p => 0 <= bg_x p <= canvas_width canvas /\
                   0 <= bg_y p <= canvas_height canvas)
         (backgroundParticles
            (next (animate Math_sin Math_random env time s))).
Proof.
  intros Ec Hc Hw Hh.
  assert (Ha : available env = true) by (unfold available; now rewrite Ec).
  destruct (animate_next Math_sin Math_random env time s Ha)
    as (canvas' & rgb & Ec' & _ & Eb & _).
  rewrite Ec in Ec'. injection Ec' as <-.
  rewrite Eb. apply Forall_map, Forall_forall. intros p _.
  now apply moveBackground_within.
Qed.

(** *** Opacities *)

(** X14.  A foreground particle is drawn where it is, with its radius, at
    global alpha 1, in one of three styles.  The opacity of the two rgba
    styles is [min (0.3 + 0.1 * speed) 1]: it lies in [[0.3, 1]], grows
    with the speed and is 1 from a speed of 7 on.  A particle that is not
    white is drawn in its own color unless it sparkles. *)
Theorem drawParticle_opacity (rgb : Z * Z * Z) (k : nat) (p : Particle R) :
  exists (style : FillStyle R) (opacity : R),
    drawParticle Math_random rgb k p
    = FillCircle style 1 (x p) (y p) (size p) /\
    opacity = Rmin (3 / 10 + speed p * (1 / 10)) 1 /\
    3 / 10 <= opacity <= 1 /\
    (7 <= speed p -> opacity = 1) /\
    (speed p <= 7 -> opacity = 3 / 10 + speed p / 10) /\
    (style = Rgba rgb opacity \/
     (style = Rgba (255, 255, 255)%Z opacity /\ color p = "#ffffff"%string) \/
     (style = Color (color p) /\ color p <> "#ffffff"%string)).
Proof.
  set (opacity := Rmin (3 / 10 + speed p * (1 / 10)) 1).
  pose proof (speed_nonneg p) as Hs.
  assert (Hb : 3 / 10 <= opacity <= 1).
  { unfold opacity. split; [apply Rmin_glb; lra|apply Rmin_r]. }
  assert (H7 : 7 <= speed p -> opacity = 1)
    by (intros L; unfold opacity; apply Rmin_right; lra).
  assert (H7' : speed p <= 7 -> opacity = 3 / 10 + speed p / 10)
    by (intros L; unfold opacity; rewrite Rmin_left; lra).
  unfold drawParticle.
  change (Math_min (decimal 3 1 + speed p * decimal 1 1)%js (lit 1))
    with opacity.
  destruct (_ >? _)%js.
  - exists (Rgba rgb opacity), opacity. repeat split; try tauto; try lra.
  - destruct (String.eqb (color p) "#ffffff") eqn:E.
    + apply String.eqb_eq in E.
      exists (Rgba (255, 255, 255)%Z opacity), opacity.
      repeat split; try tauto; try lra.
    + apply String.eqb_neq in E.
      exists (Color (color p)), opacity.
      repeat split; try tauto; try lra.
Qed.

(** *** The gradient color is a color *)

Lemma Math_round_between (lo hi : Z) (a : R) :
  IZR lo <= a <= IZR hi -> (lo <= Math_round a <= hi)%Z.
Proof.
  intros [Hl Hh].
  change (Math_round a) with (Zfloor (a + / 2)).
  pose proof (Zfloor_bound (a + / 2)) as [B1 B2].
  split.
  - apply Zfloor_lub. lra.
  - assert (L : (Zfloor (a + / 2) < hi + 1)%Z); [|lia].
    apply lt_IZR. rewrite plus_IZR. lra.
Qed.

Lemma currentColor_channels (progress : R) :
  0 <= progress <= 2 ->
  let '(red, green, blue) := currentColor progress in
  (34 <= red <= 147)%Z /\ (51 <= green <= 211)%Z /\ (234 <= blue <= 244)%Z.
Proof.
  intros [H0 H2]. unfold currentColor.
  change (progress <=? lit 1)%js with (Rleb progress 1).
  unfold Rleb. destruct (Rle_dec progress 1) as [L|L].
  - change (lerpColor (lit 66, lit 133, lit 244) (lit 147, lit 51, lit 234)
              progress)
      with (Math_round (66 + (147 - 66) * progress),
            Math_round (133 + (51 - 133) * progress),
            Math_round (244 + (234 - 244) * progress)).
    assert (B1 := @Math_round_between 66 147 (66 + (147 - 66) * progress)
                    ltac:(simpl; split; lra)).
    assert (B2 := @Math_round_between 51 133 (133 + (51 - 133) * progress)
                    ltac:(simpl; split; lra)).
    assert (B3 := @Math_round_between 234 244 (244 + (234 - 244) * progress)
                    ltac:(simpl; split; lra)).
    repeat split; lia.
  - apply Rnot_le_lt in L.
    change (lerpColor (lit 147, lit 51, lit 234) (lit 34, lit 211, lit 238)
              (progress - lit 1)%js)
      with (Math_round (147 + (34 - 147) * (progress - 1)),
            Math_round (51 + (211 - 51) * (progress - 1)),
            Math_round (234 + (238 - 234) * (progress - 1))).
    assert (B1 := @Math_round_between 34 147
                    (147 + (34 - 147) * (progress - 1))
                    ltac:(simpl; split; lra)).
    assert (B2 := @Math_round_between 51 211
                    (51 + (211 - 51) * (progress - 1))
                    ltac:(simpl; split; lra)).
    assert (B3 := @Math_round_between 234 238
                    (234 + (238 - 234) * (progress - 1))
                    ltac:(simpl; split; lra)).
    repeat split; lia.
Qed.

(** X16.  In a window of positive height, whatever the scroll offset,
    the color of the gradient that a frame draws has its red channel in
    [[34, 147]], its green channel in [[51, 211]] and its blue channel
    in [[234, 244]]: it is a color, between the three stops. *)
Theorem gradient_channels (env : FrameEnv R) (time : R) (s : Sim R) :
  available env = true -> 0 < innerHeight env ->
  exists (cx cy r a w h : R) (red green blue : Z),
    nth_error (drawn (animate Math_sin Math_random env time s)) 1
    = Some (FillRect (RadialGradient cx cy r (red, green, blue) a) w h) /\
    (34 <= red <= 147)%Z /\ (51 <= green <= 211)%Z /\
    (234 <= blue <= 244)%Z.
Proof.
  intros Ha _.
  destruct (animate_color Math_sin Math_random env time s Ha)
    as (progress & cx & cy & r & a & w & h & Hp & _ & E).
  pose proof (currentColor_channels Hp) as C.
  destruct (currentColor progress) as [[red green] blue].
  exists cx, cy, r, a, w, h, red, green, blue.
  split; [exact E|exact C].
Qed.

(** *** Rest *)

(** X8.  With the pointer inactive and no scroll, a field in which every
    particle is at rest on its origin and no examined pair overlaps is
    left by a frame exactly as it was. *)
Theorem rest_is_fixed (c : R) (env : FrameEnv R) (time : R) (s : Sim R) :
  calm c s -> steady c env ->
  (forall i j pi pj, (i < j)%nat -> Nat.even i = true ->
     nth_error (particles s) i = Some pi ->
     nth_error (particles s) j = Some pj -> ~ overlapping pi pj) ->
  Forall (fun p => x p = originX p /\ y p = originY p /\
                   vx p = 0 /\ vy p = 0) (particles s) ->
  particles (next (animate Math_sin Math_random env time s)) = particles s.
Proof.
  intros Hc Hs Hq Hrest.
  destruct (animate_free Math_sin Math_random time Hc Hs
              (quiet_of_indices 0 _ Hq)) as [E _].
  rewrite E. rewrite <- (map_id (particles s)) at 2.
  apply map_ext_in. intros p Hin.
  rewrite Forall_forall in Hrest.
  destruct (Hrest p Hin) as (Hx & Hy & Hvx & Hvy).
  destruct (freeStep_fields p) as (Vx & Vy & X & Y & Ox & Oy).
  apply Particle_ext; try reflexivity.
  - rewrite X, Vx. rewrite Hvx, <- Hx. lra.
  - rewrite Y, Vy. rewrite Hvy, <- Hy. lra.
  - rewrite Vx, Hvx, <- Hx. lra.
  - rewrite Vy, Hvy, <- Hy. lra.
Qed.

(** *** Scroll wind *)

(** X7.  With the pointer inactive, the velocity that a frame gives to a
    foreground particle is
    [(v + scrollForce + 0.05 * (origin - position)) * 0.92], the scroll
    force acting on the vertical component only, where [scrollForce] is
    [-0.05] times the change of the scroll offset since the last frame;
    this holds whatever collisions the particle goes through.  The frame
    records the offset it read, so that a frame that reads the same
    offset again feels no wind. *)
Theorem velocity_update (env : FrameEnv R) (time : R) (s : Sim R) :
  available env = true -> isActive (mouse s) = false ->
  let scrollForce :=
    match scrollRef env with
    | Some el => - (scrollTop el - lastScrollTop s) * (5 / 100)
    | None => 0
    end in
  let s' := next (animate Math_sin Math_random env time s) in
  (forall i p, nth_error (particles s) i = Some p ->
     exists p', nth_error (particles s') i = Some p' /\
       vx p' = (vx p + (originX p - x p) * (5 / 100)) * (92 / 100) /\
       vy p' = (vy p + scrollForce + (originY p - y p) * (5 / 100))
               * (92 / 100)) /\
  lastScrollTop s'
  = match scrollRef env with
    | Some el => scrollTop el
    | None => lastScrollTop s
    end /\
  (forall el, scrollRef env = Some el ->
     scrollForceOf env s' = 0).
Proof.
  intros Ha Hi scrollForce s'.
  pose proof (animate_velocities Math_sin Math_random env time s Ha) as Ev.
  pose proof (animate_lastScrollTop Math_sin Math_random env time s Ha) as El.
  fold s' in Ev, El.
  assert (Ef : scrollForceOf env s = scrollForce).
  { unfold scrollForceOf, scrollForce. destruct (scrollRef env) as [el|].
    - reflexivity.
    - change ((- 0) * (5 / 100) = 0). lra. }
  split; [|split].
  - intros i p Hp.
    apply (f_equal (fun l => nth_error l i)) in Ev.
    rewrite !nth_error_map, Hp in Ev. cbn [option_map] in Ev.
    destruct (nth_error (particles s') i) as [p'|]; [|discriminate].
    exists p'. split; [reflexivity|].
    cbn [option_map] in Ev. rewrite Ef in Ev.
    unfold applyForces in Ev.
    rewrite mouseInteraction_none in Ev by (left; exact Hi).
    injection Ev as Evx Evy.
    split; [rewrite Evx|rewrite Evy]; reflexivity.
  - exact El.
  - intros el Eel. unfold scrollForceOf. rewrite Eel, El, Eel.
    change ((- (scrollTop el - scrollTop el)) * (5 / 100) = 0). lra.
Qed.

(** *** Frames per second *)

Lemma animate_fps (env : FrameEnv R) (time : R) (s : Sim R) :
  available env = true ->
  let due := Rleb 1000 (time - lastFpsTime s) in
  frameCount (next (animate Math_sin Math_random env time s))
  = (if due then 0 else frameCount s + 1)%Z /\
  lastFpsTime (next (animate Math_sin Math_random env time s))
  = (if due then time else lastFpsTime s) /\
  fpsText (animate Math_sin Math_random env time s)
  = (if due && fpsRef env then Some (frameCount s + 1)%Z else None).
Proof.
  intros Ha due. unfold available in Ha. unfold animate.
  destruct (canvasRef env) as [canvas|]; [|discriminate].
  rewrite Ha. cbn [negb].
  destruct (scrollRef env) as [el|];
    destruct (collisionLoop _ _ _ _ _ _); repeat split.
Qed.

Lemma run_within_second (t0 : R) (frames : list (FrameEnv R * R))
  (s : Sim R) :
  lastFpsTime s = t0 ->
  Forall (fun f => available (fst f) = true /\ snd f - t0 < 1000) frames ->
  frameCount (run Math_sin Math_random frames s)
  = (frameCount s + Z.of_nat (List.length frames))%Z /\
  lastFpsTime (run Math_sin Math_random frames s) = t0.
Proof.
  intros Ht Hf. revert s Ht.
  induction Hf as [|f frames [Ha Hl] _ IH]; intros s Ht.
  - split; [simpl; lia|exact Ht].
  - destruct (@animate_fps (fst f) (snd f) s Ha) as (Ec & El & _).
    rewrite Ht, Rleb_false in Ec, El by lra.
    change (run Math_sin Math_random (f :: frames) s)
      with (run Math_sin Math_random frames
              (next (animate Math_sin Math_random (fst f) (snd f) s))).
    destruct (IH _ El) as (Ec' & El').
    rewrite Ec', El', Ec. split; [|reflexivity].
    cbn [List.length]. lia.
Qed.

(** X17.  The frames drawn within a second of the last FPS write are counted
    and write nothing; the first frame a full second after it writes,
    when the FPS element is there, the number of frames counted, itself
    included, sets the count back to 0 and takes its own time as that of
    the last write. *)
Theorem fps_counts_frames (frames : list (FrameEnv R * R))
  (env : FrameEnv R) (time : R) (s : Sim R) :
  Forall (fun f => available (fst f) = true /\
                   snd f - lastFpsTime s < 1000) frames ->
  available env = true -> 1000 <= time - lastFpsTime s ->
  let s' := run Math_sin Math_random frames s in
  frameCount s' = (frameCount s + Z.of_nat (List.length frames))%Z /\
  (forall before f after, frames = before ++ f :: after ->
     fpsText (animate Math_sin Math_random (fst f) (snd f)
                (run Math_sin Math_random before s)) = None) /\
  fpsText (animate Math_sin Math_random env time s')
  = (if fpsRef env
     then Some (frameCount s + Z.of_nat (List.length frames) + 1)%Z
     else None) /\
  frameCount (next (animate Math_sin Math_random env time s')) = 0%Z /\
  lastFpsTime (next (animate Math_sin Math_random env time s')) = time.
Proof.
  intros Hf Ha Hd s'.
  destruct (@run_within_second (lastFpsTime s) frames s eq_refl Hf)
    as (Ec & El). fold s' in Ec, El.
  split; [exact Ec|]. split.
  - intros before f after E. rewrite E in Hf.
    apply Forall_app in Hf. destruct Hf as [Hb Hr].
    inversion Hr as [|f' after' [Haf Hlf] _]; subst.
    destruct (@run_within_second (lastFpsTime s) before s eq_refl Hb)
      as (_ & Elb).
    destruct (@animate_fps (fst f) (snd f)
                (run Math_sin Math_random before s) Haf)
      as (_ & _ & Et).
    rewrite Et, Elb, Rleb_false by lra. reflexivity.
  - destruct (@animate_fps env time s' Ha) as (Ec' & El' & Et).
    rewrite El, Rleb_true in Ec', El', Et by lra.
    rewrite Et, Ec', El', Ec. repeat split.
Qed.

(** *** Pointer repulsion *)

(** X11.  An active pointer at a distance [d] from a particle, [0 < d < 250],
    adds to its velocity a vector directed from the pointer to the
    particle, of magnitude [(250 - d) / 250 * 6], which is positive and
    below 6, and moves nothing else; an inactive pointer, or one at 250
    or more, changes nothing. *)
Theorem pointer_repulsion (m : MouseState R) (p : Particle R) :
  isActive m = true -> 0 < pointerDistance m p < 250 ->
  let d := pointerDistance m p in
  let magnitude := (250 - d) / 250 * 6 in
  let q := mouseInteraction m p in
  0 < magnitude < 6 /\
  vx q - vx p = magnitude * ((x p - mouse_x m) / d) /\
  vy q - vy p = magnitude * ((y p - mouse_y m) / d) /\
  sqrt ((vx q - vx p) * (vx q - vx p) + (vy q - vy p) * (vy q - vy p))
  = magnitude /\
  (x q = x p /\ y q = y p /\ origin q = origin p /\ static q = static p) /\
  (forall m' : MouseState R,
     isActive m' = false \/ 250 <= pointerDistance m' p ->
     mouseInteraction m' p = p).
Proof.
  intros Ha Hd d magnitude q.
  destruct (mouseInteraction_repels m p Ha Hd) as (_ & _ & Vx & Vy & S).
  fold d q in Vx, Vy, S.
  assert (Em : (250 - d) / 250 * (12 / 10) * 5 = magnitude)
    by (unfold magnitude; lra).
  rewrite Em in Vx, Vy, S. fold d in Hd.
  split; [unfold magnitude; lra|].
  split; [rewrite Vx; lra|]. split; [rewrite Vy; lra|].
  split; [exact S|]. split.
  - unfold q. rewrite mouseInteraction_unfold.
    destruct (isActive m && _); repeat split.
  - intros m'. apply mouseInteraction_none.
Qed.

End ExactFurther.

(** ** The further properties at concrete inputs *)

Section FurtherInstances.

Local Open Scope R_scope.

Lemma populations_kept_witness :
  let events := [MouseMove 10 20; Frame drawable 16; Resize None None 1;
                 MouseOut; Frame drawable 33] in
  Forall (fun e => @repopulates R e = false) events /\
  map (@static R) (particles (handleAll noSin noRandom events (inert row)))
  = map (@static R) (particles (inert row)) /\
  map (@bgStatic R)
      (backgroundParticles (handleAll noSin noRandom events (inert row)))
  = map (@bgStatic R) (backgroundParticles (inert row)) /\
  entityCount (handleAll noSin noRandom events (inert row))
  = entityCount (inert row).
Proof.
  intros events.
  assert (Hf : Forall (fun e => @repopulates R e = false) events)
    by (repeat constructor).
  split; [exact Hf|].
  exact (populations_kept noSin noRandom (inert row) Hf).
Defined.

Lemma available_drawable : available drawable = true.
Proof. reflexivity. Qed.

Lemma velocity_damped_once_witness :
  available drawable = true /\
  map (@velocity R)
      (particles (next (animate noSin noRandom drawable 16 (inert row))))
  = map (fun p => damp (velocity
                          (applyForces (mouse (inert row))
                             (scrollForceOf drawable (inert row)) p)))
        (particles (inert row)).
Proof.
  split; [exact available_drawable|].
  exact (proj2 (velocity_damped_once noSin noRandom drawable 16 (inert row)
                  available_drawable)).
Defined.

Lemma frame_drawn_witness :
  available drawable = true /\
  List.length (drawn (animate noSin noRandom drawable 16 (inert row)))
  = 5%nat.
Proof.
  split; [exact available_drawable|].
  destruct (frame_drawn noSin noRandom drawable 16 (inert row)
              available_drawable)
    as (canvas & rgb & gradient & _ & _ & _ & _ & L).
  exact L.
Defined.

Lemma noRandom_unit : forall k, 0 <= noRandom k < 1.
Proof. intros k. unfold noRandom. lra. Qed.

Lemma initParticles_foreground_witness :
  (forall k, 0 <= noRandom k < 1) /\ 0 <= 1000 /\ 0 <= 1000 /\
  Forall (fun p =>
            (0 <= x p <= 1000 /\ 0 <= y p <= 1000) /\
            (originX p = x p /\ originY p = y p) /\
            (vx p = 0 /\ vy p = 0) /\
            1 <= size p <= 5 / 2 /\
            (color p = "#4285F4"%string \/ color p = "#ffffff"%string) /\
            0 <= angle p <= 2 * PI)
         (particles (initParticles noRandom 1000 1000 (inert []))).
Proof.
  assert (H0 : 0 <= 1000) by lra.
  split; [exact noRandom_unit|]. split; [exact H0|]. split; [exact H0|].
  exact (initParticles_foreground noRandom (inert []) noRandom_unit H0 H0).
Defined.

Lemma initParticles_background_witness :
  (forall k, 0 <= noRandom k < 1) /\ 0 <= 1000 /\ 0 <= 1000 /\
  Forall (fun p =>
            (0 <= bg_x p <= 1000 /\ 0 <= bg_y p <= 1000) /\
            (- (1 / 10) <= bg_vx p <= 1 / 10 /\
             - (1 / 10) <= bg_vy p <= 1 / 10) /\
            1 / 2 <= bg_size p <= 3 / 2 /\
            1 / 10 <= bg_alpha p <= 4 / 10 /\
            0 <= bg_phase p <= 2 * PI)
         (backgroundParticles (initParticles noRandom 1000 1000 (inert []))).
Proof.
  assert (H0 : 0 <= 1000) by lra.
  split; [exact noRandom_unit|]. split; [exact H0|]. split; [exact H0|].
  exact (initParticles_background noRandom (inert []) noRandom_unit H0 H0).
Defined.

Lemma background_within_canvas_witness :
  let canvas :=
    {| canvas_width := 800; canvas_height := 600; has_context := true |} in
  let stray := {| bg_x := 5000; bg_y := - 300; bg_vx := 1 / 10;
                  bg_vy := - (1 / 10); bg_size := 1; bg_alpha := 1 / 5;
                  bg_phase := 0 |} in
  let s := {| particles := []; backgroundParticles := [stray];
              mouse := mouse (inert []); frameId := 0; lastTime := 0;
              lastFpsTime := 0; frameCount := 0; lastScrollTop := 0;
              entityCount := 1; randomCalls := 0 |} in
  (canvasRef drawable = Some canvas /\ has_context canvas = true /\
   0 <= canvas_width canvas /\ 0 <= canvas_height canvas) /\
  Forall (fun p => 0 <= bg_x p <= canvas_width canvas /\
                   0 <= bg_y p <= canvas_height canvas)
         (backgroundParticles (next (animate noSin noRandom drawable 0 s))).
Proof.
  intros canvas stray s.
  assert (Hw : 0 <= canvas_width canvas) by (simpl; lra).
  assert (Hh : 0 <= canvas_height canvas) by (simpl; lra).
  split; [repeat split; assumption|].
  exact (@background_within_canvas noSin noRandom drawable 0 s canvas
           eq_refl eq_refl Hw Hh).
Defined.

Lemma gradient_channels_witness :
  (available (scrolled 300) = true /\ 0 < innerHeight (scrolled 300)) /\
  exists (cx cy r a w h : R) (red green blue : Z),
    nth_error (drawn (animate noSin noRandom (scrolled 300) 0 (inert row))) 1
    = Some (FillRect (RadialGradient cx cy r (red, green, blue) a) w h) /\
    (34 <= red <= 147)%Z /\ (51 <= green <= 211)%Z /\
    (234 <= blue <= 244)%Z.
Proof.
  assert (Hh : 0 < innerHeight (scrolled 300)) by (simpl; lra).
  split; [split; [reflexivity|exact Hh]|].
  exact (gradient_channels noSin noRandom (scrolled 300) 0 (inert row)
           eq_refl Hh).
Defined.

Lemma row_examined_pairs_clear :
  forall i j pi pj, (i < j)%nat -> Nat.even i = true ->
    nth_error (particles (inert row)) i = Some pi ->
    nth_error (particles (inert row)) j = Some pj -> ~ overlapping pi pj.
Proof.
  intros i j pi pj Hij He Hi Hj.
  destruct i as [|[|[|i]]]; simpl in He; try discriminate He.
  - destruct j as [|[|[|j]]]; try lia; simpl in Hi, Hj;
      try (destruct j; discriminate Hj);
      injection Hi as <-; injection Hj as <-;
      unfold overlapping, distSq; simpl; lra.
  - destruct j as [|[|[|j]]]; try lia. simpl in Hj.
    destruct j; discriminate Hj.
  - simpl in Hi. destruct i; discriminate Hi.
Qed.

Lemma rest_is_fixed_witness :
  (calm 0 (inert row) /\ steady 0 drawable /\
   Forall (fun p => x p = originX p /\ y p = originY p /\
                    vx p = 0 /\ vy p = 0) (particles (inert row))) /\
  particles (next (animate noSin noRandom drawable 16 (inert row)))
  = particles (inert row).
Proof.
  assert (Hr : Forall (fun p : Particle R =>
                         x p = originX p /\ y p = originY p /\
                         vx p = 0 /\ vy p = 0) (particles (inert row)))
    by (repeat constructor).
  split; [split; [apply calm_inert|split; [apply steady_drawable|exact Hr]]|].
  exact (@rest_is_fixed noSin noRandom 0 drawable 16 (inert row)
           (calm_inert row) steady_drawable row_examined_pairs_clear Hr).
Defined.

Lemma velocity_update_witness :
  let env := {| canvasRef := canvasRef drawable;
                scrollRef := Some {| scrollTop := 100; scrollHeight := 1800;
                                     clientHeight := 600 |};
                fpsRef := true; innerHeight := 600; rafId := 2 |} in
  let s := inert [moving 0 0 0] in
  (available env = true /\ isActive (mouse s) = false) /\
  exists p',
    nth_error (particles (next (animate noSin noRandom env 16 s))) 0
    = Some p' /\
    vx p' = 0 /\ vy p' = - (46 / 10).
Proof.
  intros env s.
  split; [split; reflexivity|].
  destruct (proj1 (@velocity_update noSin noRandom env 16 s eq_refl eq_refl)
              0%nat (moving 0 0 0) eq_refl) as (p' & E & Vx & Vy).
  exists p'. split; [exact E|].
  simpl in Vx, Vy. split; lra.
Defined.

Lemma fps_counts_frames_witness :
  let env := {| canvasRef := canvasRef drawable; scrollRef := None;
                fpsRef := true; innerHeight := 600; rafId := 3 |} in
  let frames := [(drawable, 16); (env, 33)] in
  let s := inert [] in
  (Forall (fun f => available (fst f) = true /\
                    snd f - lastFpsTime s < 1000) frames /\
   available env = true /\ 1000 <= 1000 - lastFpsTime s) /\
  fpsText (animate noSin noRandom env 1000 (run noSin noRandom frames s))
  = Some 3%Z.
Proof.
  intros env frames s.
  assert (Hf : Forall (fun f => available (fst f) = true /\
                                snd f - lastFpsTime s < 1000) frames)
    by (repeat constructor; simpl; lra).
  assert (Hd : 1000 <= 1000 - lastFpsTime s) by (simpl; lra).
  split; [repeat split; assumption|].
  destruct (@fps_counts_frames noSin noRandom frames env 1000 s Hf eq_refl Hd)
    as (_ & _ & Et & _).
  exact Et.
Defined.

Lemma pointerDistance_100 :
  pointerDistance {| mouse_x := 0; mouse_y := 0; isActive := true |}
                  (moving 100 0 0) = 100.
Proof.
  unfold pointerDistance; simpl.
  replace ((0 - 100) * (0 - 100) + (0 - 0) * (0 - 0)) with (100 * 100)
    by ring.
  apply sqrt_square. lra.
Qed.

Lemma pointer_repulsion_witness :
  let m := {| mouse_x := 0; mouse_y := 0; isActive := true |} in
  let p := moving 100 0 0 in
  (isActive m = true /\ 0 < pointerDistance m p < 250) /\
  vx (mouseInteraction m p) - vx p = 36 / 10 /\
  vy (mouseInteraction m p) - vy p = 0.
Proof.
  intros m p.
  assert (Hd : 0 < pointerDistance m p < 250)
    by (unfold m, p; rewrite pointerDistance_100; lra).
  split; [split; [reflexivity|exact Hd]|].
  destruct (@pointer_repulsion m p eq_refl Hd) as (_ & Vx & Vy & _).
  assert (E : pointerDistance m p = 100) by apply pointerDistance_100.
  rewrite E in Vx, Vy.
  change (x p) with 100 in Vx. change (mouse_x m) with 0 in Vx.
  change (y p) with 0 in Vy. change (mouse_y m) with 0 in Vy.
  split; lra.
Defined.

End FurtherInstances.
